(** * Image / identifier association in the catalog extraction scripts

    A shallow embedding of [extract_image_and_text.py] (column clustering,
    "column-tie-break" policy) and [extract_image_and_text_.py]
    (horizontal band, "band-tolerance" policy), together with the
    properties of the association loops, of the identifier extraction and
    of the page pipeline.

    Conventions of the embedding:
    - page coordinates are exact rationals ([Q]); the scripts only add,
      subtract, halve and compare them;
    - [float("inf")] is the extra point [Inf] of [Dist];
    - a Python [dict] is an association list in insertion order;
    - text is a [string] whose characters are code points below 256;
    - an uncaught Python exception is the [Raise] outcome of [Result];
    - scikit-learn's [KMeans] and the PDF backend are taken as given:
      the former is a function argument, the latter is the data of
      [Page] and [Doc]; of the backend only [doc.extract_image] and the
      indexing [get_image_rects(xref)[0]] may raise, and writing a file
      always succeeds. *)

From Stdlib Require Import List Bool Arith ZArith QArith Qabs Lia Lqa.
From Stdlib Require Import Ascii String DecimalString DecimalZ.
From Stdlib Require Import Permutation Sorted FinFun.
Import ListNotations.

Local Open Scope Q_scope.

(** ** Rational comparisons as booleans *)

Definition Qltb (x y : Q) : bool := negb (Qle_bool y x).
Definition Qleb (x y : Q) : bool := Qle_bool x y.

(** ** Distances with [float("inf")] *)

Inductive Dist : Type :=
| Inf
| Fin (q : Q).

(** [dist < min_dist] *)
Definition dist_ltb (d : Q) (m : Dist) : bool :=
  match m with
  | Inf => true
  | Fin q => Qltb d q
  end.

(** ** Data model *)

(** [bbox = (x0, y0, x1, y1)] *)
Record BBox : Type := mkBBox { bx0 : Q; by0 : Q; bx1 : Q; by1 : Q }.

(** An element of [id_entries]: [{"id", "text", "bbox"}]. *)
Record Entry : Type := mkEntry {
  ent_id : string;
  ent_text : string;
  ent_bbox : BBox
}.

(** An element of [image_info]: [{"xref", "center", "bbox"}]. *)
Record ImageInfo : Type := mkImageInfo {
  ii_xref : Z;
  ii_center : Q * Q;
  ii_bbox : BBox
}.

(** The state of an association loop is [(closest_id, min_dist)]. *)
Definition MatchState : Type := (option Entry * Dist)%type.

Definition match_init : MatchState := (None, Inf).

(** ** Text: whitespace, [strip], [join] *)

Local Open Scope string_scope.

Definition code (c : ascii) : nat := nat_of_ascii c.

(** [str.isspace] and the class [\s] on code points below 256:
    TAB..CR, FS..US, SPACE, NEL and NBSP. *)
Definition is_space (c : ascii) : bool :=
  let n := code c in
  (((9 <=? n) && (n <=? 13)) || ((28 <=? n) && (n <=? 32))
   || (n =? 133) || (n =? 160))%nat.

(** The class [\d] on code points below 256: the ten ASCII digits. *)
Definition is_digit (c : ascii) : bool :=
  let n := code c in ((48 <=? n) && (n <=? 57))%nat.

(** The class [[A-Z]]. *)
Definition is_upper (c : ascii) : bool :=
  let n := code c in ((65 <=? n) && (n <=? 90))%nat.

Definition is_char (a : ascii) (c : ascii) : bool := Ascii.eqb a c.

Fixpoint lstrip (s : string) : string :=
  match s with
  | EmptyString => EmptyString
  | String c s' => if is_space c then lstrip s' else s
  end.

Fixpoint rstrip (s : string) : string :=
  match s with
  | EmptyString => EmptyString
  | String c s' =>
      match rstrip s' with
      | EmptyString => if is_space c then EmptyString else String c EmptyString
      | r => String c r
      end
  end.

(** [s.strip()] *)
Definition strip (s : string) : string := rstrip (lstrip s).

(** [" ".join(parts)] *)
Fixpoint join_space (parts : list string) : string :=
  match parts with
  | [] => EmptyString
  | [p] => p
  | p :: rest => p ++ " " ++ join_space rest
  end.

(** Drop the first [n] characters. *)
Fixpoint sdrop (n : nat) (s : string) : string :=
  match n, s with
  | O, _ => s
  | S n', String _ s' => sdrop n' s'
  | S _, EmptyString => EmptyString
  end.

(** Keep the first [n] characters. *)
Fixpoint stake (n : nat) (s : string) : string :=
  match n, s with
  | O, _ => EmptyString
  | S n', String c s' => String c (stake n' s')
  | S _, EmptyString => EmptyString
  end.

(** ** Regular expressions: the fragment used by [id_pattern] *)

Inductive regex : Type :=
| Cls (p : ascii -> bool)      (* one character of a class *)
| Seq (r1 r2 : regex)          (* r1 r2 *)
| Opt (r : regex)              (* (?:r)?  greedy *)
| Star (r : regex)             (* r*      greedy *)
| Plus (r : regex).            (* r+      greedy *)

(** Greedy repetition with backtracking: try one more iteration (which
    has to consume something), fall back on the continuation. *)
Fixpoint star_loop {A : Type}
    (m : string -> (string -> option A) -> option A)
    (fuel : nat) (s : string) (k : string -> option A) : option A :=
  match fuel with
  | O => k s
  | S fuel' =>
      match m s (fun s' =>
                   if (length s' <? length s)%nat then star_loop m fuel' s' k
                   else None) with
      | Some x => Some x
      | None => k s
      end
  end.

(** Backtracking matcher in continuation-passing style: [rmatch r s k]
    matches [r] at the start of [s] and hands the unread rest to [k];
    alternatives are tried in the order of Python's engine. *)
Fixpoint rmatch {A : Type} (r : regex) (s : string)
    (k : string -> option A) : option A :=
  match r with
  | Cls p =>
      match s with
      | String c s' => if p c then k s' else None
      | EmptyString => None
      end
  | Seq r1 r2 => rmatch r1 s (fun s' => rmatch r2 s' k)
  | Opt r1 =>
      match rmatch r1 s k with
      | Some x => Some x
      | None => k s
      end
  | Star r1 => star_loop (rmatch r1) (length s) s k
  | Plus r1 => rmatch r1 s (fun s' => star_loop (rmatch r1) (length s') s' k)
  end.

(** [pattern.match(s)]: the length of the match at the start of [s]. *)
Definition match_len (r : regex) (s : string) : option nat :=
  rmatch r s (fun rest => Some (length s - length rest)%nat).

(** [re.search]: the leftmost position where the pattern matches, as
    [(start, length)] relative to [s]. *)
Fixpoint search_from (r : regex) (s : string) : option (nat * nat) :=
  match match_len r s with
  | Some n => Some (O, n)
  | None =>
      match s with
      | EmptyString => None
      | String _ s' =>
          match search_from r s' with
          | Some (i, n) => Some (S i, n)
          | None => None
          end
      end
  end.

(** [re.search(pattern, s).group(1)] for a pattern that is one group. *)
Definition re_search (r : regex) (s : string) : option string :=
  match search_from r s with
  | Some (i, n) => Some (stake n (sdrop i s))
  | None => None
  end.

(** [re.finditer]: the spans [(start, end)] of the successive matches,
    each search resuming where the previous match ended (one character
    further after an empty match, which the identifier patterns never
    produce) and stopping past the end of the text. *)
Fixpoint finditer_from (r : regex) (fuel : nat) (pos : nat) (s : string)
    : list (nat * nat) :=
  match fuel with
  | O => []
  | S fuel' =>
      match search_from r s with
      | None => []
      | Some (i, n) =>
          let adv := (i + Nat.max n 1)%nat in
          ((pos + i)%nat, (pos + i + n)%nat)
            :: (if (adv <=? length s)%nat
                then finditer_from r fuel' (pos + adv)%nat (sdrop adv s)
                else [])
      end
  end.

Definition finditer (r : regex) (s : string) : list (nat * nat) :=
  finditer_from r (S (length s)) O s.

(** [re.findall(pattern, s)] for a pattern that is one group. *)
Definition re_findall (r : regex) (s : string) : list string :=
  map (fun sp => stake (snd sp - fst sp) (sdrop (fst sp) s)) (finditer r s).

(** [#\s*\d+(?:-\d+)?(?:\.\d+)?], the part the two patterns share. *)
Definition id_tail : regex :=
  Seq (Cls (is_char "#"))
   (Seq (Star (Cls is_space))
    (Seq (Plus (Cls is_digit))
     (Seq (Opt (Seq (Cls (is_char "-")) (Plus (Cls is_digit))))
          (Opt (Seq (Cls (is_char ".")) (Plus (Cls is_digit))))))).

(** [extract_image_and_text.py]: [([A-Z]+#\s*\d+(?:-\d+)?(?:\.\d+)?)] *)
Definition id_pattern_any : regex := Seq (Plus (Cls is_upper)) id_tail.

(** [extract_image_and_text_.py]: [(KM#\s*\d+(?:-\d+)?(?:\.\d+)?)] *)
Definition id_pattern_km : regex :=
  Seq (Cls (is_char "K")) (Seq (Cls (is_char "M")) id_tail).

(** ** Exceptions *)

Inductive Exn : Type :=
| TypeError      (* str + int, or comparing a str with an int *)
| ValueError     (* raised by KMeans.fit_predict *)
| ExtractError.  (* raised by doc.extract_image *)

Inductive Result (A : Type) : Type :=
| Ok (a : A)
| Raise (e : Exn).

Arguments Ok {A} a.
Arguments Raise {A} e.

Definition bind {A B : Type} (m : Result A) (f : A -> Result B) : Result B :=
  match m with
  | Ok a => f a
  | Raise e => Raise e
  end.

Notation "x <- m ;; k" := (bind m (fun x => k))
  (at level 61, m at next level, right associativity).

(** A [for] loop whose body may raise. *)
Fixpoint for_each {A S : Type} (body : S -> A -> Result S) (l : list A) (s : S)
    : Result S :=
  match l with
  | [] => Ok s
  | a :: l' => s' <- body s a ;; for_each body l' s'
  end.

(** ** The document backend *)

(** An element of [page.get_text("dict")["blocks"]]: type 0 carries
    lines of spans (here the span texts), type 1 is an image. *)
Inductive Block : Type :=
| TextBlock (bbox : BBox) (lines : list (list string))
| ImageBlock (bbox : BBox).

(** An element of [page.get_images(full=True)], with what
    [page.get_image_rects(xref)] returns for it. *)
Record PageImage : Type := mkPageImage {
  pi_xref : Z;
  pi_rects : list BBox
}.

Record Page : Type := mkPage {
  pg_blocks : list Block;
  pg_images : list PageImage
}.

(** [doc.extract_image(xref)]: [(image bytes, ext)], [None] when it raises. *)
Record Doc : Type := mkDoc {
  doc_pages : list Page;
  doc_extract_image : Z -> option (string * string)
}.

(** ** The Mapping *)

(** A value of [data]: [{"image", "page", "unique_number", "text"}]. *)
Record MatchRecord : Type := mkRecord {
  rec_image : string;
  rec_page : nat;
  rec_unique_number : string;
  rec_text : string
}.

(** Keys of [data]: integers while the scripts fill it, strings when it
    comes from [json.load]. *)
Inductive PyKey : Type :=
| KInt (z : Z)
| KStr (s : string).

Definition key_eqb (a b : PyKey) : bool :=
  match a, b with
  | KInt x, KInt y => Z.eqb x y
  | KStr x, KStr y => String.eqb x y
  | _, _ => false
  end.

Definition Dict : Type := list (PyKey * MatchRecord).

(** [d[k] = v]: an existing key keeps its place, a new one goes last. *)
Fixpoint dict_set (k : PyKey) (v : MatchRecord) (d : Dict) : Dict :=
  match d with
  | [] => [(k, v)]
  | (k', v') :: d' =>
      if key_eqb k' k then (k', v) :: d' else (k', v') :: dict_set k v d'
  end.

Fixpoint dict_get (k : PyKey) (d : Dict) : option MatchRecord :=
  match d with
  | [] => None
  | (k', v') :: d' => if key_eqb k' k then Some v' else dict_get k d'
  end.

Definition keys (d : Dict) : list PyKey := map fst d.

(** ** Run state and the save block *)

(** [data], [image_index] and the image files written so far. *)
Record State : Type := mkState {
  st_data : Dict;
  st_index : Z;
  st_files : list (string * string)
}.

Definition str_of_Z (z : Z) : string := NilZero.string_of_int (Z.to_int z).

(** [os.path.join(folder, name)] *)
Definition path_join (folder name : string) : string := folder ++ "/" ++ name.

(** [if closest_id: ...] of both scripts (lines 156-175 and 98-113):
    extract the image, write it, record the match, advance the index.
    Writing the file ([open], [f.write]) is taken to succeed; only
    [doc.extract_image] raises here. *)
Definition save_match (images_folder : string) (doc : Doc) (page_num : nat)
    (xref : Z) (closest_id : option Entry) (st : State) : Result State :=
  match closest_id with
  | None => Ok st
  | Some ent =>
      match doc_extract_image doc xref with
      | None => Raise ExtractError
      | Some (image_bytes, ext) =>
          let filename := "img_" ++ str_of_Z (st_index st) ++ "." ++ ext in
          let path := path_join images_folder filename in
          Ok {| st_data :=
                  dict_set (KInt (st_index st))
                    {| rec_image := filename;
                       rec_page := page_num;
                       rec_unique_number := ent_id ent;
                       rec_text := ent_text ent |}
                    (st_data st);
                st_index := (st_index st + 1)%Z;
                st_files := st_files st ++ [(path, image_bytes)] |}
      end
  end.

(** Pages with their numbers:
    [for page_num in range(a, b): page = doc[page_num]]. *)
Fixpoint enumerate_from {A : Type} (n : nat) (l : list A) : list (nat * A) :=
  match l with
  | [] => []
  | a :: l' => (n, a) :: enumerate_from (S n) l'
  end.

(** [(x0 + x1) / 2, (y0 + y1) / 2] *)
Definition center_of (b : BBox) : Q * Q :=
  ((bx0 b + bx1 b) / 2, (by0 b + by1 b) / 2)%Q.

Definition initial_state : State :=
  {| st_data := []; st_index := 0%Z; st_files := [] |}.

(** ** [extract_image_and_text.py]: clustering into columns *)

Module Column.

Definition images_folder : string := "final_testing/images1".

Definition id_pattern : regex := id_pattern_any.

(** What [KMeans(n_clusters, random_state=42).fit_predict(X)] leaves:
    the labels of the samples and the fitted [predict]. *)
Record Fitted : Type := mkFitted {
  labels : list nat;
  predict : Q -> nat
}.

(** The clusterer: number of clusters and samples to a fitted model,
    [None] when the fit raises. *)
Definition KMeans : Type := nat -> list Q -> option Fitted.

(** An element of [image_info] once ["cluster"] is set. *)
Record Labelled : Type := mkLabelled {
  li_img : ImageInfo;
  li_cluster : nat
}.

(** [block_text += span['text'] + " "] over the spans of the lines. *)
Definition block_text (lines : list (list string)) : string :=
  fold_left (fun acc t => acc ++ t ++ " ") (List.concat lines) EmptyString.

(** Step 1 (lines 53-70): at most one entry per text block. *)
Definition entries_of_block (block : Block) : list Entry :=
  match block with
  | TextBlock bbox lines =>
      let text := block_text lines in
      match re_search id_pattern text with
      | Some EmptyString => []
      | Some g1 =>
          [{| ent_id := strip g1; ent_text := strip text; ent_bbox := bbox |}]
      | None => []
      end
  | ImageBlock _ => []
  end.

Definition id_entries (blocks : list Block) : list Entry :=
  flat_map entries_of_block blocks.

(** [abs(rect.x0 - x0) < 2 and abs(rect.y0 - y0) < 2] *)
Definition near (rect : BBox) (x0 y0 : Q) : bool :=
  Qltb (Qabs (bx0 rect - x0)) 2 && Qltb (Qabs (by0 rect - y0)) 2.

(** Lines 91-100: the first image whose first rectangle is near the
    corner; an image without rectangle raises at [[0]] and is passed. *)
Fixpoint matching_xref (page_images : list PageImage) (x0 y0 : Q)
    : option Z :=
  match page_images with
  | [] => None
  | img :: rest =>
      match pi_rects img with
      | [] => matching_xref rest x0 y0
      | rect :: _ =>
          if near rect x0 y0 then Some (pi_xref img)
          else matching_xref rest x0 y0
      end
  end.

(** Step 2 (lines 84-110) for one block of [text_instances]. *)
Definition image_of_block (page_images : list PageImage) (block : Block)
    : list ImageInfo :=
  match block with
  | ImageBlock bbox =>
      match matching_xref page_images (bx0 bbox) (by0 bbox) with
      | None => []
      | Some xref =>
          if Z.eqb xref 0 then []
          else [{| ii_xref := xref; ii_center := center_of bbox;
                   ii_bbox := bbox |}]
      end
  | TextBlock _ _ => []
  end.

Definition image_info (page : Page) : list ImageInfo :=
  flat_map (image_of_block (pg_images page)) (pg_blocks page).

(** [image_coords]: the x-centers handed to the clusterer. *)
Definition image_coords (infos : list ImageInfo) : list Q :=
  map (fun im => fst (ii_center im)) infos.

Definition n_clusters : nat := 3.

(** Lines 123-124: [image_info[i]["cluster"] = labels[i]]. *)
Definition attach_labels (labs : list nat) (infos : list ImageInfo)
    : list Labelled :=
  map (fun p => {| li_img := snd p; li_cluster := nth (fst p) labs O |})
      (enumerate_from O infos).

Definition y_center (im : Labelled) : Q := snd (ii_center (li_img im)).

(** [sorted(image_info, key=lambda x: x["center"][1])], a stable sort. *)
Fixpoint insert_by_y (im : Labelled) (l : list Labelled) : list Labelled :=
  match l with
  | [] => [im]
  | im' :: l' =>
      if Qleb (y_center im) (y_center im') then im :: im' :: l'
      else im' :: insert_by_y im l'
  end.

Definition sorted_by_y (l : list Labelled) : list Labelled :=
  fold_right insert_by_y [] l.

Definition ent_x_center (ent : Entry) : Q :=
  ((bx0 (ent_bbox ent) + bx1 (ent_bbox ent)) / 2)%Q.

Definition ent_y_center (ent : Entry) : Q :=
  ((by0 (ent_bbox ent) + by1 (ent_bbox ent)) / 2)%Q.

(** Body of [for ent in id_entries] (lines 137-151); [predict] is
    [kmeans.predict] of the model fitted on the page. *)
Definition match_step (predict : Q -> nat) (img_cluster : nat) (img_y : Q)
    (st : MatchState) (ent : Entry) : MatchState :=
  let ent_cluster := predict (ent_x_center ent) in
  if Nat.eqb ent_cluster img_cluster && Qltb img_y (ent_y_center ent) then
    let dist := (ent_y_center ent - img_y)%Q in
    if dist_ltb dist (snd st) then (Some ent, Fin dist) else st
  else st.

(** [closest_id] when the inner loop is over. *)
Definition closest_id (predict : Q -> nat) (img_cluster : nat) (img_y : Q)
    (id_entries : list Entry) : option Entry :=
  fst (fold_left (match_step predict img_cluster img_y) id_entries match_init).

(** Body of [for img_obj in sorted(...)] (lines 129-175). *)
Definition image_step (doc : Doc) (page_num : nat) (predict : Q -> nat)
    (entries : list Entry) (st : State) (img_obj : Labelled) : Result State :=
  let img_cluster := li_cluster img_obj in
  let img_y := y_center img_obj in
  let xref := ii_xref (li_img img_obj) in
  save_match images_folder doc page_num xref
    (closest_id predict img_cluster img_y entries) st.

(** Body of [for page_num in range(len(doc))] (lines 41-175). *)
Definition page_step (kmeans : KMeans) (doc : Doc) (st : State)
    (p : nat * Page) : Result State :=
  let page_num := fst p in
  let page := snd p in
  let entries := id_entries (pg_blocks page) in
  match entries, pg_images page with
  | [], _ => Ok st
  | _, [] => Ok st
  | _, _ =>
      let infos := image_info page in
      match infos with
      | [] => Ok st
      | _ =>
          match kmeans n_clusters (image_coords infos) with
          | None => Raise ValueError
          | Some fitted =>
              for_each (image_step doc page_num (predict fitted) entries)
                (sorted_by_y (attach_labels (labels fitted) infos)) st
          end
      end
  end.

(** The script: [data = {}], [image_index = 0], then every page. *)
Definition run (kmeans : KMeans) (doc : Doc) : Result State :=
  for_each (page_step kmeans doc) (enumerate_from O (doc_pages doc))
    initial_state.

End Column.

(** ** [extract_image_and_text_.py]: horizontal band *)

Module Band.

Definition images_folder : string := "KrauseGuide_Output/images".

Definition chunk_size : nat := 80.

Definition horizontal_tolerance : Q := 50.
Definition vertical_tolerance : Q := -2.

Definition id_pattern : regex := id_pattern_km.

(** Step 1 (lines 36-47): one element per rectangle of each image;
    [page.get_image_rects] is taken to return its list. *)
Definition image_info (page : Page) : list ImageInfo :=
  flat_map
    (fun img =>
       map (fun r => {| ii_xref := pi_xref img; ii_center := center_of r;
                        ii_bbox := r |})
           (pi_rects img))
    (pg_images page).

(** [" ".join(span['text'] for line in ... for span in ...).strip()] *)
Definition block_text (lines : list (list string)) : string :=
  strip (join_space (List.concat lines)).

(** Step 2 (lines 55-67): one entry per match of the block. *)
Definition entries_of_block (block : Block) : list Entry :=
  match block with
  | TextBlock bbox lines =>
      let text := block_text lines in
      map (fun match_id =>
             {| ent_id := strip match_id; ent_text := text; ent_bbox := bbox |})
          (re_findall id_pattern text)
  | ImageBlock _ => []
  end.

Definition id_entries (blocks : list Block) : list Entry :=
  flat_map entries_of_block blocks.

Definition ent_center_x (ent : Entry) : Q :=
  ((bx0 (ent_bbox ent) + bx1 (ent_bbox ent)) / 2)%Q.

Definition ent_top (ent : Entry) : Q := by0 (ent_bbox ent).

(** Body of [for ent in id_entries] (lines 79-95), the two tolerances
    as arguments; a [continue] leaves the state as it is. *)
Definition match_step (htol vtol : Q) (img_bbox : BBox)
    (st : MatchState) (ent : Entry) : MatchState :=
  let img_x0 := bx0 img_bbox in
  let img_x1 := bx1 img_bbox in
  let img_y1 := by1 img_bbox in
  if Qleb (ent_top ent) (img_y1 + vtol) then st
  else if Qltb (ent_center_x ent) (img_x0 - htol)
          || Qltb (img_x1 + htol) (ent_center_x ent) then st
  else
    let dist := (ent_top ent - img_y1)%Q in
    if dist_ltb dist (snd st) then (Some ent, Fin dist) else st.

Definition closest_id_with (htol vtol : Q) (img_bbox : BBox)
    (id_entries : list Entry) : option Entry :=
  fst (fold_left (match_step htol vtol img_bbox) id_entries match_init).

(** [closest_id] when the inner loop is over, with the module-level
    tolerances of the script. *)
Definition closest_id (img_bbox : BBox) (id_entries : list Entry)
    : option Entry :=
  closest_id_with horizontal_tolerance vertical_tolerance img_bbox id_entries.

(** Body of [for img_obj in image_info] (lines 73-113). *)
Definition image_step (doc : Doc) (page_num : nat) (entries : list Entry)
    (st : State) (img_obj : ImageInfo) : Result State :=
  save_match images_folder doc page_num (ii_xref img_obj)
    (closest_id (ii_bbox img_obj) entries) st.

(** Body of [for page_num in range(...)] (lines 32-113). *)
Definition page_step (doc : Doc) (st : State) (p : nat * Page)
    : Result State :=
  let page_num := fst p in
  let page := snd p in
  match image_info page with
  | [] => Ok st
  | infos =>
      match id_entries (pg_blocks page) with
      | [] => Ok st
      | entries => for_each (image_step doc page_num entries) infos st
      end
  end.

(** The pages [range(start_page, min(end_page, len(doc)))], numbered. *)
Definition page_range (doc : Doc) (start_page end_page : nat)
    : list (nat * Page) :=
  let stop := Nat.min end_page (List.length (doc_pages doc)) in
  enumerate_from start_page
    (firstn (stop - start_page) (skipn start_page (doc_pages doc))).

(** [process_pages(doc, start_page, end_page, data, image_index)];
    [data] and [image_index] travel in the state. *)
Definition process_pages (doc : Doc) (start_page end_page : nat) (st : State)
    : Result State :=
  for_each (page_step doc) (page_range doc start_page end_page) st.

(** [json.load(f)]: the members of the object, in file order, under
    string keys. *)
Definition json_load (members : list (string * MatchRecord)) : Dict :=
  fold_left (fun d m => dict_set (KStr (fst m)) (snd m) d) members [].

(** [a > b] on keys: integers by value, strings by code points, a
    string against an integer raises. *)
Definition key_gt (a b : PyKey) : Result bool :=
  match a, b with
  | KInt x, KInt y => Ok (Z.ltb y x)
  | KStr x, KStr y => Ok (String.ltb y x)
  | _, _ => Raise TypeError
  end.

(** [max(iterable, default=d)] *)
Definition py_max (ks : list PyKey) (default : PyKey) : Result PyKey :=
  match ks with
  | [] => Ok default
  | k :: rest =>
      for_each (fun cur item =>
                  gt <- key_gt item cur ;;
                  Ok (if gt then item else cur))
               rest k
  end.

(** [k + 1] *)
Definition py_add_1 (k : PyKey) : Result Z :=
  match k with
  | KInt z => Ok (z + 1)%Z
  | KStr _ => Raise TypeError
  end.

(** Line 128:
    [image_index = max(data.keys(), default=-1) + 1 if data else 0] *)
Definition start_index (data : Dict) : Result Z :=
  match data with
  | [] => Ok 0%Z
  | _ => m <- py_max (keys data) (KInt (-1)) ;; py_add_1 m
  end.

(** [range(0, total_pages, chunk_size)] *)
Definition chunk_starts (total_pages chunk : nat) : list nat :=
  map (fun i => (i * chunk)%nat)
      (seq O (Nat.div (total_pages + chunk - 1) chunk)).

(** Lines 137-145: the chunks in turn (the checkpoint written after
    each chunk is the [st_data] of the state at that point). *)
Definition run_chunks (doc : Doc) (chunk : nat) (st : State) : Result State :=
  for_each (fun st start => process_pages doc start (start + chunk) st)
           (chunk_starts (List.length (doc_pages doc)) chunk) st.

(** The main script; [existing] is the content of the JSON file when
    there is one. *)
Definition main (existing : option (list (string * MatchRecord)))
    (doc : Doc) : Result State :=
  let data := match existing with
              | Some members => json_load members
              | None => []
              end in
  image_index <- start_index data ;;
  run_chunks doc chunk_size
    {| st_data := data; st_index := image_index; st_files := [] |}.

End Band.

(** * Properties *)

Local Open Scope list_scope.

(** ** Boolean comparisons *)

Lemma Qltb_lt (x y : Q) : Qltb x y = true <-> (x < y)%Q.
Proof.
  unfold Qltb. rewrite negb_true_iff.
  split; intro H.
  - apply Qnot_le_lt. intro Hle. apply Qle_bool_iff in Hle. congruence.
  - destruct (Qle_bool y x) eqn:E; [|reflexivity].
    apply Qle_bool_iff in E. exfalso. apply (Qlt_not_le _ _ H E).
Qed.

Lemma Qltb_ge (x y : Q) : Qltb x y = false <-> (y <= x)%Q.
Proof.
  unfold Qltb. rewrite negb_false_iff. apply Qle_bool_iff.
Qed.

Lemma Qleb_le (x y : Q) : Qleb x y = true <-> (x <= y)%Q.
Proof. apply Qle_bool_iff. Qed.

Lemma Qleb_gt (x y : Q) : Qleb x y = false <-> (y < x)%Q.
Proof.
  unfold Qleb. split; intro H.
  - apply Qnot_le_lt. intro Hle. apply Qle_bool_iff in Hle. congruence.
  - destruct (Qle_bool x y) eqn:E; [|reflexivity].
    apply Qle_bool_iff in E. exfalso. apply (Qlt_not_le _ _ H E).
Qed.

(** ** The shape shared by the two association loops

    Both loop bodies guard an update of [(closest_id, min_dist)] by an
    eligibility test and by [dist < min_dist]. *)

Section NearestFirst.

Variable elig : Entry -> bool.
Variable dist : Entry -> Q.

Definition guarded_step (st : MatchState) (ent : Entry) : MatchState :=
  if elig ent then
    if dist_ltb (dist ent) (snd st) then (Some ent, Fin (dist ent)) else st
  else st.

(** [e] is eligible, strictly nearer than every eligible entry before
    it in the list and at least as near as every eligible entry after it. *)
Definition first_nearest (l : list Entry) (e : Entry) : Prop :=
  exists l1 l2,
    l = l1 ++ e :: l2 /\ elig e = true /\
    (forall e', In e' l1 -> elig e' = true -> (dist e < dist e')%Q) /\
    (forall e', In e' l2 -> elig e' = true -> (dist e <= dist e')%Q).

Definition loop_inv (l : list Entry) (st : MatchState) : Prop :=
  (st = (None, Inf) /\ forall e, In e l -> elig e = false) \/
  (exists e, st = (Some e, Fin (dist e)) /\ first_nearest l e).

Lemma loop_inv_step l st x :
  loop_inv l st -> loop_inv (l ++ [x]) (guarded_step st x).
Proof.
  unfold guarded_step. intros [[-> Hnone] | (e & -> & l1 & l2 & -> & He & Hb & Ha)].
  - destruct (elig x) eqn:Ex; simpl.
    + right. exists x. split; [reflexivity|].
      exists l, []. repeat split; auto.
      * intros e' Hin He'. rewrite (Hnone _ Hin) in He'. discriminate.
      * intros e' [].
    + left. split; [reflexivity|].
      intros e Hin. apply in_app_or in Hin as [Hin | [<- | []]]; auto.
  - destruct (elig x) eqn:Ex; simpl.
    + destruct (Qltb (dist x) (dist e)) eqn:Elt.
      * apply Qltb_lt in Elt. right. exists x. split; [reflexivity|].
        exists (l1 ++ e :: l2), []. repeat split; auto.
        -- intros e' Hin He'.
           apply in_app_or in Hin as [Hin | [<- | Hin]].
           ++ specialize (Hb _ Hin He'). lra.
           ++ exact Elt.
           ++ specialize (Ha _ Hin He'). lra.
        -- intros e' [].
      * apply Qltb_ge in Elt. right. exists e. split; [reflexivity|].
        exists l1, (l2 ++ [x]). repeat split; auto.
        -- rewrite <- app_assoc. reflexivity.
        -- intros e' Hin He'.
           apply in_app_or in Hin as [Hin | [<- | []]]; auto.
    + right. exists e. split; [reflexivity|].
      exists l1, (l2 ++ [x]). repeat split; auto.
      * rewrite <- app_assoc. reflexivity.
      * intros e' Hin He'.
        apply in_app_or in Hin as [Hin | [<- | []]]; auto. congruence.
Qed.

Lemma loop_inv_fold l :
  loop_inv l (fold_left guarded_step l match_init).
Proof.
  induction l as [|x l IH] using rev_ind.
  - left. split; [reflexivity|]. intros e [].
  - rewrite fold_left_app. simpl. apply loop_inv_step, IH.
Qed.

Definition nearest (l : list Entry) : option Entry :=
  fst (fold_left guarded_step l match_init).

Lemma nearest_None l :
  nearest l = None <-> forall e, In e l -> elig e = false.
Proof.
  unfold nearest.
  destruct (loop_inv_fold l) as [[-> H] | (e & -> & l1 & l2 & -> & He & _)];
    simpl; split; auto; try discriminate.
  intro H. rewrite H in He; [discriminate|].
  apply in_or_app. right. left. reflexivity.
Qed.

Lemma nearest_Some l e :
  nearest l = Some e -> first_nearest l e.
Proof.
  unfold nearest.
  destruct (loop_inv_fold l) as [[-> H] | (e0 & -> & Hf)]; simpl.
  - discriminate.
  - intros [= <-]. exact Hf.
Qed.

Lemma first_nearest_min l e :
  first_nearest l e ->
  In e l /\ elig e = true /\
  forall e', In e' l -> elig e' = true -> (dist e <= dist e')%Q.
Proof.
  intros (l1 & l2 & -> & He & Hb & Ha). repeat split; auto.
  - apply in_or_app. right. left. reflexivity.
  - intros e' Hin He'. apply in_app_or in Hin as [Hin | [<- | Hin]].
    + specialize (Hb _ Hin He'). lra.
    + lra.
    + auto.
Qed.

(** The first-nearest entry of a list is unique as a position: two
    decompositions have the same prefix. *)
Lemma first_nearest_unique l e1 e2 :
  first_nearest l e1 -> first_nearest l e2 -> e1 = e2.
Proof.
  intros (a1 & a2 & E1 & H1 & B1 & A1) (b1 & b2 & E2 & H2 & B2 & A2).
  subst l. revert b1 E2 B2 B1.
  induction a1 as [|x a1 IH]; intros b1 E2 B2 B1.
  - destruct b1 as [|y b1]; simpl in E2.
    + congruence.
    + injection E2 as -> E2.
      assert (Hin : In e2 a2).
      { rewrite E2. apply in_or_app. right. left. reflexivity. }
      specialize (A1 _ Hin H2).
      specialize (B2 y (or_introl eq_refl) H1). lra.
  - destruct b1 as [|y b1]; simpl in E2.
    + injection E2 as -> E2.
      assert (Hin : In e1 b2).
      { rewrite <- E2. apply in_or_app. right. left. reflexivity. }
      specialize (A2 _ Hin H1).
      specialize (B1 e2 (or_introl eq_refl) H2). lra.
    + injection E2 as -> E2.
      apply (IH b1 E2).
      * intros e' Hin. apply B2. right. exact Hin.
      * intros e' Hin. apply B1. right. exact Hin.
Qed.

End NearestFirst.

(** ** Column policy: the inner loop of [extract_image_and_text.py] *)

Section ColumnPolicy.

Variable predict : Q -> nat.
Variable img_cluster : nat.
Variable img_y : Q.

(** Eligibility as the specification words it: same column, and
    vertical center strictly greater than the image's. *)
Definition column_eligible (ent : Entry) : Prop :=
  predict (Column.ent_x_center ent) = img_cluster /\
  (img_y < Column.ent_y_center ent)%Q.

(** [entryVerticalCenter - imageVerticalCenter] *)
Definition column_distance (ent : Entry) : Q :=
  (Column.ent_y_center ent - img_y)%Q.

(** The guard of line 147. *)
Definition column_guard (ent : Entry) : bool :=
  Nat.eqb (predict (Column.ent_x_center ent)) img_cluster
  && Qltb img_y (Column.ent_y_center ent).

Lemma column_guard_spec ent :
  column_guard ent = true <-> column_eligible ent.
Proof.
  unfold column_guard, column_eligible.
  rewrite andb_true_iff, Nat.eqb_eq, Qltb_lt. reflexivity.
Qed.

Lemma column_guard_false ent :
  column_guard ent = false <-> ~ column_eligible ent.
Proof.
  rewrite <- column_guard_spec. destruct (column_guard ent); split;
    congruence.
Qed.

Lemma column_closest_nearest entries :
  Column.closest_id predict img_cluster img_y entries
  = nearest column_guard column_distance entries.
Proof. reflexivity. Qed.

(** C1. Column-tie-break association: an entry takes part in the
    choice exactly when the fitted assignment puts its x-center in the
    image's column and its vertical center is strictly greater than the
    image's; the loop returns no entry exactly when no entry is
    eligible, and otherwise an eligible entry of the list whose
    vertical distance is minimal among the eligible ones; an entry of
    another column is never returned. *)
Theorem column_association (entries : list Entry) :
  (forall ent st,
     Column.match_step predict img_cluster img_y st ent <> st ->
     column_eligible ent) /\
  (Column.closest_id predict img_cluster img_y entries = None <->
   forall ent, In ent entries -> ~ column_eligible ent) /\
  (forall ent,
     Column.closest_id predict img_cluster img_y entries = Some ent ->
     In ent entries /\ column_eligible ent /\
     forall ent', In ent' entries -> column_eligible ent' ->
                  (column_distance ent <= column_distance ent')%Q) /\
  (forall ent,
     predict (Column.ent_x_center ent) <> img_cluster ->
     Column.closest_id predict img_cluster img_y entries <> Some ent).
Proof.
  assert (Hsome : forall ent,
     Column.closest_id predict img_cluster img_y entries = Some ent ->
     In ent entries /\ column_eligible ent /\
     forall ent', In ent' entries -> column_eligible ent' ->
                  (column_distance ent <= column_distance ent')%Q).
  { intros ent H. rewrite column_closest_nearest in H.
    apply nearest_Some, first_nearest_min in H as (Hin & Hel & Hmin).
    repeat split; auto; try (apply column_guard_spec in Hel; apply Hel).
    intros ent' Hin' Hel'. apply Hmin; auto.
    apply column_guard_spec. exact Hel'. }
  split; [|split; [|split]].
  - intros ent st Hne. apply column_guard_spec.
    unfold Column.match_step in Hne. fold (column_guard ent) in Hne.
    destruct (column_guard ent); congruence.
  - rewrite column_closest_nearest, nearest_None.
    split; intros H ent Hin; apply column_guard_false; auto.
  - exact Hsome.
  - intros ent Hne H. apply Hsome in H as (_ & [Hc _] & _). contradiction.
Qed.

End ColumnPolicy.

(** The example of the specification: image at vertical center 100 in
    column 0, entries of column 0 centered at 150 and 300, an entry of
    column 1 centered at 110. Columns are told apart here by the side of
    x = 300 the x-center falls on. *)
Definition example_predict (x : Q) : nat := if Qltb x 300 then 0%nat else 1%nat.

Definition entry_at (name : string) (xc yc : Q) : Entry :=
  {| ent_id := name; ent_text := name;
     ent_bbox := mkBBox (xc - 10) (yc - 5) (xc + 10) (yc + 5) |}.

Example column_example :
  Column.closest_id example_predict 0 100
    [entry_at "B" 100 300; entry_at "other" 400 110; entry_at "A" 100 150]
  = Some (entry_at "A" 100 150).
Proof. vm_compute. reflexivity. Qed.

(** ** Band policy: the inner loop of [extract_image_and_text_.py] *)

Section BandPolicy.

Variables htol vtol : Q.
Variable img : BBox.

(** Eligibility as the loop has it: top edge strictly below the
    image's bottom edge moved by the vertical tolerance, horizontal
    center within [[imgX0 - H, imgX1 + H]]. *)
Definition band_eligible (ent : Entry) : Prop :=
  (by1 img + vtol < Band.ent_top ent)%Q /\
  (bx0 img - htol <= Band.ent_center_x ent)%Q /\
  (Band.ent_center_x ent <= bx1 img + htol)%Q.

(** Eligibility as the specification words it: top edge at or below
    the image's bottom edge moved by the vertical tolerance. *)
Definition band_eligible_at_or_below (ent : Entry) : Prop :=
  (by1 img + vtol <= Band.ent_top ent)%Q /\
  (bx0 img - htol <= Band.ent_center_x ent)%Q /\
  (Band.ent_center_x ent <= bx1 img + htol)%Q.

(** [entryTop - imageBottom] *)
Definition band_distance (ent : Entry) : Q := (Band.ent_top ent - by1 img)%Q.

(** The entries that get past the two [continue]s of lines 85-90. *)
Definition band_guard (ent : Entry) : bool :=
  negb (Qleb (Band.ent_top ent) (by1 img + vtol))
  && negb (Qltb (Band.ent_center_x ent) (bx0 img - htol)
           || Qltb (bx1 img + htol) (Band.ent_center_x ent)).

Lemma band_guard_spec ent : band_guard ent = true <-> band_eligible ent.
Proof.
  unfold band_guard, band_eligible.
  rewrite andb_true_iff, !negb_true_iff, orb_false_iff, Qleb_gt, !Qltb_ge.
  reflexivity.
Qed.

Lemma band_guard_false ent : band_guard ent = false <-> ~ band_eligible ent.
Proof.
  rewrite <- band_guard_spec. destruct (band_guard ent); split; congruence.
Qed.

Lemma band_step_guarded st ent :
  Band.match_step htol vtol img st ent
  = guarded_step band_guard band_distance st ent.
Proof.
  unfold Band.match_step, guarded_step, band_guard, band_distance.
  destruct (Qleb (Band.ent_top ent) (by1 img + vtol)); simpl; [reflexivity|].
  destruct (Qltb (Band.ent_center_x ent) (bx0 img - htol)
            || Qltb (bx1 img + htol) (Band.ent_center_x ent));
    reflexivity.
Qed.

Lemma band_closest_nearest entries :
  Band.closest_id_with htol vtol img entries
  = nearest band_guard band_distance entries.
Proof.
  unfold Band.closest_id_with, nearest. f_equal.
  generalize match_init.
  induction entries as [|e l IH]; intro st; simpl; [reflexivity|].
  rewrite band_step_guarded. apply IH.
Qed.

(** C2 (amended). Band-tolerance association: an entry takes part in
    the choice exactly when its top edge is strictly greater than the
    image's bottom edge plus the vertical tolerance and its horizontal
    center lies in [[imgX0 - H, imgX1 + H]]; the loop returns no entry
    exactly when no entry is eligible, and otherwise an eligible entry
    of the list minimizing [entryTop - imageBottom]. *)
Theorem band_association (entries : list Entry) :
  (forall ent st,
     Band.match_step htol vtol img st ent <> st -> band_eligible ent) /\
  (Band.closest_id_with htol vtol img entries = None <->
   forall ent, In ent entries -> ~ band_eligible ent) /\
  (forall ent,
     Band.closest_id_with htol vtol img entries = Some ent ->
     In ent entries /\ band_eligible ent /\
     forall ent', In ent' entries -> band_eligible ent' ->
                  (band_distance ent <= band_distance ent')%Q).
Proof.
  split; [|split].
  - intros ent st Hne. apply band_guard_spec.
    rewrite band_step_guarded in Hne. unfold guarded_step in Hne.
    destruct (band_guard ent); congruence.
  - rewrite band_closest_nearest, nearest_None.
    split; intros H ent Hin; apply band_guard_false; auto.
  - intros ent H. rewrite band_closest_nearest in H.
    apply nearest_Some, first_nearest_min in H as (Hin & Hel & Hmin).
    repeat split; auto; try (apply band_guard_spec in Hel; apply Hel).
    intros ent' Hin' Hel'. apply Hmin; auto.
    apply band_guard_spec. exact Hel'.
Qed.

End BandPolicy.

(** The boundary example of the specification, with the tolerances of
    the script: an image spanning x in [100, 200] and y in [0, 100]; the
    entries start at y = 110. *)
Definition example_image : BBox := mkBBox 100 0 200 100.

Definition entry_centered (name : string) (xc top : Q) : Entry :=
  {| ent_id := name; ent_text := name;
     ent_bbox := mkBBox (xc - 10) top (xc + 10) (top + 10) |}.

Example band_example_245 :
  Band.closest_id example_image [entry_centered "in" 245 110]
  = Some (entry_centered "in" 245 110).
Proof. vm_compute. reflexivity. Qed.

Example band_example_260 :
  Band.closest_id example_image [entry_centered "out" 260 110] = None.
Proof. vm_compute. reflexivity. Qed.

Example band_example_250 :
  Band.closest_id example_image [entry_centered "edge" 250 110]
  = Some (entry_centered "edge" 250 110).
Proof. vm_compute. reflexivity. Qed.

(** C2 as stated fails on the vertical boundary: an entry whose top edge
    is exactly the image's bottom edge plus the tolerance (98 = 100 - 2)
    is eligible in the words of the specification, and the loop passes it. *)
Lemma band_boundary_not_selected :
  band_eligible_at_or_below Band.horizontal_tolerance Band.vertical_tolerance
    example_image (entry_centered "touch" 150 98) /\
  Band.closest_id example_image [entry_centered "touch" 150 98] = None.
Proof.
  split.
  - unfold band_eligible_at_or_below. vm_compute. repeat split; discriminate.
  - vm_compute. reflexivity.
Qed.

(** ** Ties *)

(** [e] is the earliest entry of [l] that is nearest among those
    satisfying [P]: strictly nearer than what comes before, at least as
    near as what comes after. *)
Definition earliest_nearest (P : Entry -> Prop) (d : Entry -> Q)
    (l : list Entry) (e : Entry) : Prop :=
  exists l1 l2,
    l = l1 ++ e :: l2 /\ P e /\
    (forall e', In e' l1 -> P e' -> (d e < d e')%Q) /\
    (forall e', In e' l2 -> P e' -> (d e <= d e')%Q).

Lemma first_nearest_reflect (elig : Entry -> bool) (P : Entry -> Prop) d l e :
  (forall x, elig x = true <-> P x) ->
  first_nearest elig d l e <-> earliest_nearest P d l e.
Proof.
  intro R. unfold first_nearest, earliest_nearest.
  split; intros (l1 & l2 & E & He & Hb & Ha); exists l1, l2;
    (split; [exact E|]); (split; [apply R; exact He|]);
    split; intros e' Hin He'; [apply Hb|apply Ha|apply Hb|apply Ha];
    auto; apply R; exact He'.
Qed.

Lemma nearest_iff (elig : Entry -> bool) d l e :
  nearest elig d l = Some e <-> first_nearest elig d l e.
Proof.
  split; [apply nearest_Some|].
  intro Hf. destruct (nearest elig d l) as [e0|] eqn:E.
  - apply nearest_Some in E. f_equal.
    apply (first_nearest_unique elig d l); assumption.
  - exfalso. apply first_nearest_min in Hf as (Hin & He & _).
    rewrite nearest_None in E. rewrite (E _ Hin) in He. discriminate.
Qed.

Lemma guarded_step_strict (elig : Entry -> bool) d st ent :
  guarded_step elig d st ent <> st ->
  guarded_step elig d st ent = (Some ent, Fin (d ent)) /\
  dist_ltb (d ent) (snd st) = true.
Proof.
  unfold guarded_step.
  destruct (elig ent); [|congruence].
  destruct (dist_ltb (d ent) (snd st)); [auto|congruence].
Qed.

(** C9. Deterministic tie-break: in both loops the current best is
    replaced only by an entry whose distance is strictly smaller than
    the recorded minimum, and the entry returned is exactly the earliest
    entry of the list that is nearest among the eligible ones, so that
    among entries at the same minimal distance the first in list order is
    the one selected. *)
Theorem tie_break_earliest
    (predict : Q -> nat) (img_cluster : nat) (img_y : Q)
    (htol vtol : Q) (img : BBox) (entries : list Entry) (ent : Entry) :
  (forall st,
     Column.match_step predict img_cluster img_y st ent <> st ->
     dist_ltb (column_distance img_y ent) (snd st) = true) /\
  (forall st,
     Band.match_step htol vtol img st ent <> st ->
     dist_ltb (band_distance img ent) (snd st) = true) /\
  (Column.closest_id predict img_cluster img_y entries = Some ent <->
   earliest_nearest (column_eligible predict img_cluster img_y)
     (column_distance img_y) entries ent) /\
  (Band.closest_id_with htol vtol img entries = Some ent <->
   earliest_nearest (band_eligible htol vtol img) (band_distance img)
     entries ent).
Proof.
  split; [|split; [|split]].
  - intros st H.
    apply (guarded_step_strict (column_guard predict img_cluster img_y)
             (column_distance img_y)), H.
  - intros st H. rewrite band_step_guarded in H.
    apply (guarded_step_strict _ _ _ _ H).
  - rewrite column_closest_nearest, nearest_iff.
    apply first_nearest_reflect, column_guard_spec.
  - rewrite band_closest_nearest, nearest_iff.
    apply first_nearest_reflect, band_guard_spec.
Qed.

(** Two eligible entries at the same distance: the first one wins,
    whichever way round they are listed. *)
Example tie_example_column :
  Column.closest_id example_predict 0 100
    [entry_at "first" 100 150; entry_at "second" 120 150]
  = Some (entry_at "first" 100 150) /\
  Column.closest_id example_predict 0 100
    [entry_at "second" 120 150; entry_at "first" 100 150]
  = Some (entry_at "second" 120 150).
Proof. split; vm_compute; reflexivity. Qed.

Example tie_example_band :
  Band.closest_id example_image
    [entry_centered "first" 140 110; entry_centered "second" 160 110]
  = Some (entry_centered "first" 140 110).
Proof. vm_compute. reflexivity. Qed.

(** ** Identifier extraction *)

Lemma sdrop_length n s : length (sdrop n s) = (length s - n)%nat.
Proof.
  revert s. induction n as [|n IH]; intros [|c s]; simpl; auto.
Qed.

Lemma sdrop_sdrop n m s : sdrop n (sdrop m s) = sdrop (m + n) s.
Proof.
  revert s. induction m as [|m IH]; intros s; simpl; [reflexivity|].
  destruct s as [|c s]; simpl.
  - destruct n; reflexivity.
  - apply IH.
Qed.

(** The pattern matches at position [i] of [s] over [n] characters and
    at no earlier position. *)
Definition first_occurrence (r : regex) (s : string) (i n : nat) : Prop :=
  (i <= length s)%nat /\
  match_len r (sdrop i s) = Some n /\
  forall j, (j < i)%nat -> match_len r (sdrop j s) = None.

Lemma search_from_Some r s i n :
  search_from r s = Some (i, n) -> first_occurrence r s i n.
Proof.
  revert i n. induction s as [|c s IH]; intros i n; simpl.
  - destruct (match_len r EmptyString) as [m|] eqn:E; [|discriminate].
    intros [= <- <-]. repeat split; auto. intros j Hj. lia.
  - destruct (match_len r (String c s)) as [m|] eqn:E.
    + intros [= <- <-]. repeat split; auto; [simpl; lia|]. intros j Hj. lia.
    + destruct (search_from r s) as [[i0 n0]|]; [|discriminate].
      intros [= <- <-]. destruct (IH i0 n0 eq_refl) as (Hle & Hm & Hbefore).
      repeat split; [simpl; lia|exact Hm|].
      intros [|j] Hj; simpl; [exact E|]. apply Hbefore. lia.
Qed.

Lemma search_from_None r s :
  search_from r s = None ->
  forall j, (j <= length s)%nat -> match_len r (sdrop j s) = None.
Proof.
  induction s as [|c s IH]; simpl.
  - destruct (match_len r EmptyString) eqn:E; [discriminate|].
    intros _ [|j] Hj; simpl; [exact E|lia].
  - destruct (match_len r (String c s)) eqn:E; [discriminate|].
    destruct (search_from r s) as [[i0 n0]|]; [discriminate|].
    intros _ [|j] Hj; simpl; [exact E|]. apply IH; [reflexivity|lia].
Qed.

(** The scan of [re.finditer] from position [pos]: each span is the
    leftmost match at or after the end of the previous one. *)
Inductive scan (r : regex) (s : string) : nat -> list (nat * nat) -> Prop :=
| scan_done pos :
    (forall j, (pos <= j <= length s)%nat -> match_len r (sdrop j s) = None) ->
    scan r s pos []
| scan_next pos a n rest :
    (pos <= a <= length s)%nat ->
    match_len r (sdrop a s) = Some n ->
    (forall j, (pos <= j < a)%nat -> match_len r (sdrop j s) = None) ->
    scan r s (a + Nat.max n 1) rest ->
    scan r s pos ((a, a + n)%nat :: rest).

Lemma finditer_from_scan r s fuel pos :
  (pos <= length s)%nat -> (length s - pos < fuel)%nat ->
  scan r s pos (finditer_from r fuel pos (sdrop pos s)).
Proof.
  revert pos. induction fuel as [|fuel IH]; intros pos Hpos Hfuel; [lia|].
  simpl. destruct (search_from r (sdrop pos s)) as [[i n]|] eqn:E.
  - apply search_from_Some in E as (Hi & Hm & Hbefore).
    rewrite sdrop_length in Hi. rewrite sdrop_sdrop in Hm.
    apply scan_next.
    + lia.
    + exact Hm.
    + intros j Hj. specialize (Hbefore (j - pos)%nat).
      rewrite sdrop_sdrop in Hbefore.
      replace (pos + (j - pos))%nat with j in Hbefore by lia.
      apply Hbefore. lia.
    + rewrite sdrop_length.
      destruct (Nat.leb_spec (i + Nat.max n 1) (length s - pos)) as [Hle|Hgt].
      * rewrite sdrop_sdrop.
        replace (pos + i + Nat.max n 1)%nat with (pos + (i + Nat.max n 1))%nat
          by lia.
        apply IH; lia.
      * apply scan_done. intros j Hj. lia.
  - apply scan_done. intros j Hj.
    pose proof (search_from_None _ _ E (j - pos)%nat) as H.
    rewrite sdrop_length, sdrop_sdrop in H.
    replace (pos + (j - pos))%nat with j in H by lia.
    apply H. lia.
Qed.

Lemma finditer_scan r s : scan r s 0 (finditer r s).
Proof.
  unfold finditer. apply (finditer_from_scan r s (S (length s)) 0); lia.
Qed.

(** The spans of a scan are in increasing order and do not overlap. *)
Lemma scan_ordered r s pos spans :
  scan r s pos spans ->
  forall sp, In sp spans -> (pos <= fst sp <= snd sp)%nat.
Proof.
  induction 1 as [|pos a n rest Ha Hm Hb Hs IH]; intros sp; simpl; [tauto|].
  intros [<- | Hin]; simpl; [lia|].
  specialize (IH _ Hin). lia.
Qed.

Lemma scan_tail r s pos sp rest :
  scan r s pos (sp :: rest) ->
  exists pos', (snd sp <= pos')%nat /\ scan r s pos' rest.
Proof.
  inversion 1; subst. eexists. split; [|eassumption]. simpl. lia.
Qed.

Lemma scan_disjoint r s pos a b rest :
  scan r s pos ((a, b) :: rest) ->
  forall sp, In sp rest -> (b <= fst sp)%nat.
Proof.
  intros H sp Hin. apply scan_tail in H as (pos' & Hle & H).
  pose proof (scan_ordered _ _ _ _ H _ Hin). simpl in Hle. lia.
Qed.

(** [re.search] returns the first span of [re.finditer]. *)
Lemma search_is_first_span r s :
  search_from r s
  = match finditer r s with
    | [] => None
    | (a, b) :: _ => Some (a, (b - a)%nat)
    end.
Proof.
  unfold finditer. simpl.
  destruct (search_from r s) as [[i n]|]; [|reflexivity].
  f_equal. f_equal. lia.
Qed.

Lemma re_search_is_first r s : re_search r s = hd_error (re_findall r s).
Proof.
  unfold re_search, re_findall. rewrite search_is_first_span.
  destruct (finditer r s) as [|[a b] rest]; reflexivity.
Qed.

(** The matcher hands to its continuation a rest that is no longer than
    what it was given. *)
Lemma star_loop_rest {A : Type}
    (m : string -> (string -> option A) -> option A) :
  (forall s k x, m s k = Some x ->
     exists rest, (length rest <= length s)%nat /\ k rest = Some x) ->
  forall fuel s k x, star_loop m fuel s k = Some x ->
    exists rest, (length rest <= length s)%nat /\ k rest = Some x.
Proof.
  intros Hm. induction fuel as [|fuel IH]; intros s k x; simpl.
  - intro H. exists s. split; [lia|exact H].
  - destruct (m s _) as [x0|] eqn:E.
    + intros [= ->]. apply Hm in E as (rest1 & Hle1 & Hk1).
      destruct (Nat.ltb_spec (length rest1) (length s)); [|discriminate].
      apply IH in Hk1 as (rest & Hle & Hk).
      exists rest. split; [lia|exact Hk].
    + intro H. exists s. split; [lia|exact H].
Qed.

Lemma rmatch_rest (r : regex) :
  forall (A : Type) s (k : string -> option A) x, rmatch r s k = Some x ->
    exists rest, (length rest <= length s)%nat /\ k rest = Some x.
Proof.
  induction r as [p|r1 IH1 r2 IH2|r1 IH1|r1 IH1|r1 IH1]; intros A s k x; simpl.
  - destruct s as [|c s]; [discriminate|].
    destruct (p c); [|discriminate].
    intro H. exists s. split; [simpl; lia|exact H].
  - intro H. apply IH1 in H as (rest1 & Hle1 & H).
    apply IH2 in H as (rest & Hle & H).
    exists rest. split; [lia|exact H].
  - destruct (rmatch r1 s k) as [x0|] eqn:E.
    + intros [= ->]. apply IH1 in E. exact E.
    + intro H. exists s. split; [lia|exact H].
  - apply star_loop_rest. intros s0 k0 x0. apply IH1.
  - intro H. apply IH1 in H as (rest1 & Hle1 & H).
    apply star_loop_rest in H as (rest & Hle & H).
    + exists rest. split; [lia|exact H].
    + intros s0 k0 x0. apply IH1.
Qed.

(** A pattern that starts with a character class matches at least one
    character. *)
Lemma match_len_Cls_pos p r s n :
  match_len (Seq (Cls p) r) s = Some n -> (1 <= n <= length s)%nat.
Proof.
  unfold match_len. simpl. destruct s as [|c s]; [discriminate|].
  destruct (p c); [|discriminate].
  intro H. apply rmatch_rest in H as (rest & Hle & [= <-]).
  cbn [length] in *.
  destruct (length rest); lia.
Qed.

Lemma match_len_Plus_pos p r s n :
  match_len (Seq (Plus (Cls p)) r) s = Some n -> (1 <= n <= length s)%nat.
Proof.
  unfold match_len. simpl. destruct s as [|c s]; [discriminate|].
  destruct (p c); [|discriminate].
  intro H. apply star_loop_rest in H as (rest1 & Hle1 & H).
  - apply rmatch_rest in H as (rest & Hle & [= <-]). cbn [length] in *.
  destruct (length rest); lia.
  - intros s0 k0 x0. apply (rmatch_rest (Cls p)).
Qed.

Lemma stake_nonempty n s :
  (1 <= n <= length s)%nat -> stake n s <> EmptyString.
Proof.
  destruct n as [|n]; [lia|]. destruct s as [|c s]; simpl; [lia|discriminate].
Qed.

Definition slice (sp : nat * nat) (s : string) : string :=
  stake (snd sp - fst sp) (sdrop (fst sp) s).

Lemma re_findall_slices r s :
  re_findall r s = map (fun sp => slice sp s) (finditer r s).
Proof. reflexivity. Qed.

Definition two_ids : list (list string) := [["KM# 5-10.5 and KM# 6.12"%string]].

(** C6. Identifier extraction policies: the first-match extraction
    yields at most one entry per text block, none exactly when the
    pattern occurs nowhere in the block text, and otherwise the entry
    of the leftmost occurrence; the all-matches extraction yields one
    entry per span of the left-to-right scan for successive
    non-overlapping occurrences, in that order; every entry carries the
    block's bbox and (stripped) text. On "KM# 5-10.5 and KM# 6.12" the
    former yields "KM# 5-10.5" and the latter both identifiers in order. *)
Theorem identifier_policies :
  (forall block, (List.length (Column.entries_of_block block) <= 1)%nat) /\
  (forall bbox lines,
     let text := Column.block_text lines in
     (Column.entries_of_block (TextBlock bbox lines) = [] <->
      forall j, (j <= length text)%nat ->
                match_len Column.id_pattern (sdrop j text) = None) /\
     forall e, In e (Column.entries_of_block (TextBlock bbox lines)) ->
       ent_bbox e = bbox /\ ent_text e = strip text /\
       exists i n, first_occurrence Column.id_pattern text i n /\
                   ent_id e = strip (slice (i, i + n)%nat text)) /\
  (forall bbox lines,
     let text := Band.block_text lines in
     let spans := finditer Band.id_pattern text in
     scan Band.id_pattern text 0 spans /\
     (forall l1 sp l2, spans = l1 ++ sp :: l2 ->
        (fst sp <= snd sp)%nat /\
        (forall sp', In sp' l1 -> (snd sp' <= fst sp)%nat) /\
        (forall sp', In sp' l2 -> (snd sp <= fst sp')%nat)) /\
     Band.entries_of_block (TextBlock bbox lines)
     = map (fun sp => {| ent_id := strip (slice sp text);
                         ent_text := text; ent_bbox := bbox |}) spans) /\
  (forall bbox,
     map ent_id (Column.entries_of_block (TextBlock bbox two_ids))
     = ["KM# 5-10.5"%string] /\
     map ent_id (Band.entries_of_block (TextBlock bbox two_ids))
     = ["KM# 5-10.5"%string; "KM# 6.12"%string]).
Proof.
  split; [|split; [|split]].
  - intros [bbox lines|bbox]; simpl; [|lia].
    destruct (re_search _ _) as [[|c g]|]; simpl; lia.
  - intros bbox lines text. unfold Column.entries_of_block. fold text.
    unfold re_search.
    destruct (search_from Column.id_pattern text) as [[i n]|] eqn:E.
    + pose proof (search_from_Some _ _ _ _ E) as (Hi & Hm & Hb).
      pose proof (match_len_Plus_pos _ _ _ _ Hm) as Hn.
      pose proof (stake_nonempty _ _ Hn) as Hne.
      destruct (stake n (sdrop i text)) as [|c g] eqn:Eg; [congruence|].
      split.
      * split; [discriminate|]. intro H. rewrite (H i Hi) in Hm. discriminate.
      * intros e [<- | []]. simpl. repeat split.
        exists i, n. split; [repeat split; assumption|].
        unfold slice. simpl. replace (i + n - i)%nat with n by lia.
        rewrite Eg. reflexivity.
    + split.
      * split; [|reflexivity]. intros _. apply search_from_None, E.
      * intros e [].
  - intros bbox lines text spans. split; [apply finditer_scan|]. split.
    + intros l1 sp l2 E. pose proof (finditer_scan Band.id_pattern text) as Hs.
      fold spans in Hs. rewrite E in Hs. clear E.
      generalize dependent 0%nat. induction l1 as [|[a b] l1 IH]; intros pos Hs.
      * simpl in Hs. destruct sp as [a b]. repeat split.
        -- apply (scan_ordered _ _ _ _ Hs). left. reflexivity.
        -- intros sp' [].
        -- apply (scan_disjoint _ _ _ _ _ _ Hs).
      * simpl in Hs. pose proof (scan_disjoint _ _ _ _ _ _ Hs) as Hd.
        apply scan_tail in Hs as (pos' & _ & Hs).
        destruct (IH _ Hs) as (H1 & H2 & H3).
        repeat split; auto.
        intros sp' [<- | Hin]; [|auto].
        apply Hd. apply in_or_app. right. left. reflexivity.
    + unfold Band.entries_of_block, re_findall. rewrite map_map. reflexivity.
  - intro bbox. split; vm_compute; reflexivity.
Qed.

(** Further texts: both extractions find "KM# 488" inside a sentence; a
    dash or a dot not followed by a digit ends the identifier; the text
    kept with a first-match entry is stripped. *)
Example identifier_in_sentence :
  re_search Column.id_pattern "obv. bust right KM# 488 rev. arms "
  = Some "KM# 488"%string /\
  re_findall Band.id_pattern "obv. bust right KM# 488 rev. arms"
  = ["KM# 488"%string].
Proof. split; vm_compute; reflexivity. Qed.

Example identifier_endings :
  re_findall Column.id_pattern "AKM#5-. and Y#  6.12x KM# C#7-8"
  = ["AKM#5"; "Y#  6.12"; "C#7-8"]%string.
Proof. vm_compute. reflexivity. Qed.

Example first_match_entry_text bbox :
  map ent_text (Column.entries_of_block (TextBlock bbox [["Bust"]; ["KM# 488"]]))
  = ["Bust KM# 488"%string].
Proof. vm_compute. reflexivity. Qed.

(** ** The Mapping under the save block *)

Definition int_keys (n : nat) : list PyKey :=
  map (fun i => KInt (Z.of_nat i)) (seq 0 n).

(** The keys of [data] are [0 .. N-1] in insertion order and
    [image_index] is [N]. *)
Definition contiguous (st : State) : Prop :=
  keys (st_data st) = int_keys (List.length (st_data st)) /\
  st_index st = Z.of_nat (List.length (st_data st)).

(** From [st] to [st'] exactly [k] records were appended, [k] indices
    consumed and [k] files written, nothing else touched. *)
Definition advanced (k : nat) (st st' : State) : Prop :=
  (exists more, st_data st' = st_data st ++ more /\ List.length more = k) /\
  st_index st' = (st_index st + Z.of_nat k)%Z /\
  (exists written,
     st_files st' = st_files st ++ written /\ List.length written = k).

Lemma key_eqb_eq a b : key_eqb a b = true <-> a = b.
Proof.
  destruct a as [x|x], b as [y|y]; simpl;
    try (split; [discriminate|congruence]).
  - rewrite Z.eqb_eq. split; congruence.
  - rewrite String.eqb_eq. split; congruence.
Qed.

Lemma dict_set_fresh k v d :
  ~ In k (keys d) -> dict_set k v d = d ++ [(k, v)].
Proof.
  induction d as [|[k' v'] d IH]; simpl; intro H; [reflexivity|].
  destruct (key_eqb k' k) eqn:E.
  - apply key_eqb_eq in E. tauto.
  - f_equal. apply IH. tauto.
Qed.

Lemma int_keys_fresh n : ~ In (KInt (Z.of_nat n)) (int_keys n).
Proof.
  unfold int_keys. rewrite in_map_iff. intros (i & [= E] & Hin).
  apply in_seq in Hin. lia.
Qed.

Lemma int_keys_S n : int_keys (S n) = int_keys n ++ [KInt (Z.of_nat n)].
Proof.
  unfold int_keys. rewrite seq_S, map_app. reflexivity.
Qed.

Lemma advanced_refl st : advanced 0 st st.
Proof.
  repeat split; try (exists []; rewrite app_nil_r; auto).
  simpl. lia.
Qed.

Lemma advanced_trans j k st1 st2 st3 :
  advanced j st1 st2 -> advanced k st2 st3 -> advanced (j + k) st1 st3.
Proof.
  intros ((m1 & E1 & L1) & I1 & (w1 & F1 & W1))
         ((m2 & E2 & L2) & I2 & (w2 & F2 & W2)).
  repeat split.
  - exists (m1 ++ m2). rewrite E2, E1, <- app_assoc, length_app. auto.
  - rewrite I2, I1. lia.
  - exists (w1 ++ w2). rewrite F2, F1, <- app_assoc, length_app. auto.
Qed.

(** Starting from a contiguous state, [st'] is contiguous again and
    [k] records further. *)
Definition grows (k : nat) (st st' : State) : Prop :=
  contiguous st -> contiguous st' /\ advanced k st st'.

Lemma grows_refl st : grows 0 st st.
Proof. intro H. split; [exact H|apply advanced_refl]. Qed.

Lemma grows_trans j k st1 st2 st3 :
  grows j st1 st2 -> grows k st2 st3 -> grows (j + k) st1 st3.
Proof.
  intros H12 H23 C1. destruct (H12 C1) as [C2 A12].
  destruct (H23 C2) as [C3 A23].
  split; [exact C3|]. apply (advanced_trans _ _ _ _ _ A12 A23).
Qed.

Definition is_some {A : Type} (o : option A) : bool :=
  match o with Some _ => true | None => false end.

Definition weight (b : bool) : nat := if b then 1%nat else 0%nat.

(** The save block appends one record under the next index when there
    is a match, and does nothing otherwise. *)
Lemma save_match_grows folder doc page_num xref closest st st' :
  save_match folder doc page_num xref closest st = Ok st' ->
  grows (weight (is_some closest)) st st'.
Proof.
  unfold save_match. destruct closest as [ent|]; simpl.
  - destruct (doc_extract_image doc xref) as [[image_bytes ext]|];
      [|discriminate].
    intros [= <-] [Hk Hi]. simpl.
    rewrite dict_set_fresh.
    2:{ rewrite Hi, Hk. apply int_keys_fresh. }
    split.
    + unfold contiguous. simpl. unfold keys in *.
      rewrite map_app, length_app, Hk. simpl.
      rewrite Nat.add_1_r, int_keys_S, Hi. split; [reflexivity|lia].
    + repeat split; simpl.
      * eexists. split; reflexivity.
      * eexists. split; reflexivity.
  - intros [= <-]. apply grows_refl.
Qed.

Lemma save_match_unmatched folder doc page_num xref st :
  save_match folder doc page_num xref None st = Ok st.
Proof. reflexivity. Qed.

(** A loop whose iterations grow the state by [w a] records grows it by
    the sum of the [w a]. *)
Lemma for_each_grows {A : Type} (body : State -> A -> Result State)
    (w : A -> nat) :
  (forall st a st', body st a = Ok st' -> grows (w a) st st') ->
  forall l st st', for_each body l st = Ok st' ->
                   grows (list_sum (map w l)) st st'.
Proof.
  intros Hbody. induction l as [|a l IH]; intros st st'; simpl.
  - intros [= <-]. apply grows_refl.
  - destruct (body st a) as [st1|e] eqn:E; simpl; [|discriminate].
    intro H. apply (grows_trans _ _ _ st1); [apply Hbody, E|apply IH, H].
Qed.

Lemma for_each_app {A S : Type} (body : S -> A -> Result S) l1 l2 s :
  for_each body (l1 ++ l2) s
  = (s' <- for_each body l1 s ;; for_each body l2 s').
Proof.
  revert s. induction l1 as [|a l1 IH]; intro s; simpl; [reflexivity|].
  destruct (body s a); simpl; [apply IH|reflexivity].
Qed.

Lemma list_sum_weight_filter {A : Type} (f : A -> bool) l :
  list_sum (map (fun a => weight (f a)) l) = List.length (filter f l).
Proof.
  induction l as [|a l IH]; simpl; [reflexivity|].
  destruct (f a); simpl; rewrite IH; reflexivity.
Qed.

Lemma is_some_nearest elig d l :
  is_some (nearest elig d l) = existsb elig l.
Proof.
  destruct (nearest elig d l) as [e|] eqn:E; simpl; symmetry.
  - apply nearest_Some, first_nearest_min in E as (Hin & He & _).
    apply existsb_exists. exists e. auto.
  - rewrite nearest_None in E.
    destruct (existsb elig l) eqn:X; [|reflexivity].
    apply existsb_exists in X as (e & Hin & He).
    rewrite (E _ Hin) in He. discriminate.
Qed.

(** ** Counting the matched images *)

(** The image has an eligible entry (column policy). *)
Definition column_has_match (predict : Q -> nat) (entries : list Entry)
    (im : Column.Labelled) : bool :=
  existsb (column_guard predict (Column.li_cluster im) (Column.y_center im))
          entries.

(** Image candidates of a page that have an eligible entry, under the
    model fitted on the page. *)
Definition column_page_matched (kmeans : Column.KMeans) (page : Page) : nat :=
  let infos := Column.image_info page in
  match kmeans Column.n_clusters (Column.image_coords infos) with
  | None => 0%nat
  | Some fitted =>
      List.length
        (filter (column_has_match (Column.predict fitted)
                   (Column.id_entries (pg_blocks page)))
                (Column.attach_labels (Column.labels fitted) infos))
  end.

Definition column_matched (kmeans : Column.KMeans) (pages : list Page) : nat :=
  list_sum (map (column_page_matched kmeans) pages).

(** The image has an eligible entry (band policy, script tolerances). *)
Definition band_has_match (entries : list Entry) (im : ImageInfo) : bool :=
  existsb (band_guard Band.horizontal_tolerance Band.vertical_tolerance
             (ii_bbox im))
          entries.

Definition band_page_matched (page : Page) : nat :=
  List.length (filter (band_has_match (Band.id_entries (pg_blocks page)))
                      (Band.image_info page)).

Definition band_matched (pages : list Page) : nat :=
  list_sum (map band_page_matched pages).

Lemma filter_none {A : Type} (f : A -> bool) l :
  (forall a, f a = false) -> filter f l = [].
Proof.
  intro H. induction l as [|a l IH]; simpl; [reflexivity|].
  rewrite H. exact IH.
Qed.

Lemma filter_insert_by_y_length f im l :
  List.length (filter f (Column.insert_by_y im l))
  = List.length (filter f (im :: l)).
Proof.
  induction l as [|im' l IH]; simpl; [reflexivity|].
  destruct (Qleb _ _); simpl; [reflexivity|].
  simpl in IH. destruct (f im'), (f im); simpl in *; rewrite IH; reflexivity.
Qed.

Lemma filter_sorted_by_y_length f l :
  List.length (filter f (Column.sorted_by_y l)) = List.length (filter f l).
Proof.
  induction l as [|im l IH]; simpl; [reflexivity|].
  rewrite filter_insert_by_y_length. simpl.
  destruct (f im); simpl; rewrite IH; reflexivity.
Qed.

Lemma sorted_by_y_perm l : Permutation (Column.sorted_by_y l) l.
Proof.
  induction l as [|im l IH]; simpl; [constructor|].
  transitivity (im :: Column.sorted_by_y l); [|constructor; exact IH].
  generalize (Column.sorted_by_y l). clear. intro l.
  induction l as [|im' l IH]; simpl; [reflexivity|].
  destruct (Qleb _ _); [reflexivity|].
  rewrite IH. apply perm_swap.
Qed.

Lemma column_image_step_grows doc page_num predict entries st im st' :
  Column.image_step doc page_num predict entries st im = Ok st' ->
  grows (weight (column_has_match predict entries im)) st st'.
Proof.
  unfold Column.image_step. intro H. apply save_match_grows in H.
  rewrite column_closest_nearest, is_some_nearest in H. exact H.
Qed.

Lemma column_matching_xref_nil x0 y0 : Column.matching_xref [] x0 y0 = None.
Proof. reflexivity. Qed.

Lemma column_image_info_no_images blocks :
  Column.image_info {| pg_blocks := blocks; pg_images := [] |} = [].
Proof.
  unfold Column.image_info. simpl.
  induction blocks as [|[bbox lines|bbox] l IH]; simpl; auto.
Qed.

Lemma column_page_step_grows kmeans doc st p st' :
  Column.page_step kmeans doc st p = Ok st' ->
  grows (column_page_matched kmeans (snd p)) st st'.
Proof.
  destruct p as [page_num [blocks images]].
  unfold Column.page_step, column_page_matched. simpl.
  destruct (Column.id_entries blocks) as [|e0 entries] eqn:Ee.
  { intros [= <-].
    destruct (kmeans _ _) as [fitted|]; [|apply grows_refl].
    unfold column_has_match. simpl.
    rewrite filter_none; [apply grows_refl|]. reflexivity. }
  destruct images as [|i0 images].
  { intros [= <-]. rewrite column_image_info_no_images. simpl.
    destruct (kmeans _ _); apply grows_refl. }
  destruct (Column.image_info _) as [|im0 infos] eqn:Ei.
  { intros [= <-]. simpl. destruct (kmeans _ _); apply grows_refl. }
  destruct (kmeans _ _) as [fitted|]; [|discriminate].
  intro H.
  apply (for_each_grows _
           (fun im => weight (column_has_match (Column.predict fitted)
                                (e0 :: entries) im))) in H.
  - rewrite list_sum_weight_filter, filter_sorted_by_y_length in H. exact H.
  - intros s a s'. apply column_image_step_grows.
Qed.

Lemma enumerate_from_snd {A : Type} n (l : list A) :
  map snd (enumerate_from n l) = l.
Proof.
  revert n. induction l as [|a l IH]; intro n; simpl; [reflexivity|].
  rewrite IH. reflexivity.
Qed.

Lemma column_pages_grow kmeans doc l st st' :
  for_each (Column.page_step kmeans doc) l st = Ok st' ->
  grows (column_matched kmeans (map snd l)) st st'.
Proof.
  intro H. unfold column_matched. rewrite map_map.
  apply (for_each_grows _ _ (column_page_step_grows kmeans doc) _ _ _ H).
Qed.

Lemma contiguous_initial : contiguous initial_state.
Proof. split; reflexivity. Qed.

Lemma band_image_step_grows doc page_num entries st im st' :
  Band.image_step doc page_num entries st im = Ok st' ->
  grows (weight (band_has_match entries im)) st st'.
Proof.
  unfold Band.image_step, Band.closest_id. intro H.
  apply save_match_grows in H.
  rewrite band_closest_nearest, is_some_nearest in H. exact H.
Qed.

Lemma band_page_step_grows doc st p st' :
  Band.page_step doc st p = Ok st' ->
  grows (band_page_matched (snd p)) st st'.
Proof.
  destruct p as [page_num page].
  unfold Band.page_step, band_page_matched. simpl.
  destruct (Band.image_info page) as [|im0 infos] eqn:Ei.
  { intros [= <-]. apply grows_refl. }
  destruct (Band.id_entries (pg_blocks page)) as [|e0 entries] eqn:Ee.
  { intros [= <-]. rewrite filter_none; [apply grows_refl|]. reflexivity. }
  intro H.
  change (for_each (Band.image_step doc page_num (e0 :: entries))
            (im0 :: infos) st = Ok st') in H.
  apply (for_each_grows _
           (fun im => weight (band_has_match (e0 :: entries) im))) in H.
  - rewrite list_sum_weight_filter in H. exact H.
  - intros s a s'. apply band_image_step_grows.
Qed.

Lemma band_pages_grow doc l st st' :
  for_each (Band.page_step doc) l st = Ok st' ->
  grows (band_matched (map snd l)) st st'.
Proof.
  intro H. unfold band_matched. rewrite map_map.
  apply (for_each_grows _ _ (band_page_step_grows doc) _ _ _ H).
Qed.

(** *** The chunks cover the pages once, in order *)

Lemma for_each_flat_map {A B S : Type} (body : S -> B -> Result S)
    (g : A -> list B) l s :
  for_each (fun s a => for_each body (g a) s) l s
  = for_each body (flat_map g l) s.
Proof.
  revert s. induction l as [|a l IH]; intro s; simpl; [reflexivity|].
  rewrite for_each_app.
  destruct (for_each body (g a) s); simpl; [apply IH|reflexivity].
Qed.

Lemma enumerate_from_app {A : Type} n (l1 l2 : list A) :
  enumerate_from n (l1 ++ l2)
  = enumerate_from n l1 ++ enumerate_from (n + List.length l1) l2.
Proof.
  revert n. induction l1 as [|a l1 IH]; intro n; simpl.
  - rewrite Nat.add_0_r. reflexivity.
  - rewrite IH. do 3 f_equal. lia.
Qed.

Lemma firstn_add_skipn {A : Type} n m (l : list A) :
  firstn (n + m) l = firstn n l ++ firstn m (skipn n l).
Proof.
  revert l. induction n as [|n IH]; intro l; simpl; [reflexivity|].
  destruct l as [|a l]; simpl.
  - rewrite firstn_nil. reflexivity.
  - rewrite IH. reflexivity.
Qed.

Lemma firstn_min_length {A : Type} n (l : list A) :
  firstn (Nat.min n (List.length l)) l = firstn n l.
Proof.
  destruct (Nat.le_ge_cases n (List.length l)) as [H|H].
  - rewrite Nat.min_l by exact H. reflexivity.
  - rewrite Nat.min_r by exact H.
    rewrite firstn_all, firstn_all2 by exact H. reflexivity.
Qed.

Lemma page_range_chunk doc start chunk :
  Band.page_range doc start (start + chunk)
  = enumerate_from start (firstn chunk (skipn start (doc_pages doc))).
Proof.
  unfold Band.page_range. f_equal.
  rewrite <- (firstn_min_length chunk), length_skipn.
  f_equal. lia.
Qed.

Lemma chunks_cover doc chunk k :
  flat_map (fun start => Band.page_range doc start (start + chunk))
           (map (fun i => (i * chunk)%nat) (seq 0 k))
  = enumerate_from 0 (firstn (k * chunk) (doc_pages doc)).
Proof.
  induction k as [|k IH]; [reflexivity|].
  rewrite seq_S, map_app, flat_map_app, IH. simpl.
  rewrite app_nil_r, page_range_chunk.
  replace (chunk + k * chunk)%nat with (k * chunk + chunk)%nat by lia.
  rewrite firstn_add_skipn, enumerate_from_app. simpl. f_equal.
  rewrite length_firstn.
  destruct (Nat.le_ge_cases (k * chunk) (List.length (doc_pages doc)))
    as [H|H].
  - rewrite Nat.min_l by exact H. reflexivity.
  - rewrite skipn_all2 by exact H. rewrite firstn_nil. reflexivity.
Qed.

Lemma chunk_count_covers total chunk :
  (0 < chunk)%nat -> (total <= (total + chunk - 1) / chunk * chunk)%nat.
Proof.
  intro Hc.
  pose proof (Nat.div_mod_eq (total + chunk - 1) chunk) as E.
  pose proof (Nat.mod_upper_bound (total + chunk - 1) chunk) as U.
  nia.
Qed.

(** Running chunk after chunk is running every page once, in order. *)
Lemma run_chunks_all_pages doc chunk st :
  (0 < chunk)%nat ->
  Band.run_chunks doc chunk st
  = for_each (Band.page_step doc) (enumerate_from 0 (doc_pages doc)) st.
Proof.
  intro Hc. unfold Band.run_chunks, Band.process_pages, Band.chunk_starts.
  rewrite for_each_flat_map, chunks_cover, firstn_all2; [reflexivity|].
  apply chunk_count_covers, Hc.
Qed.

Lemma band_main_fresh doc :
  Band.main None doc
  = for_each (Band.page_step doc) (enumerate_from 0 (doc_pages doc))
             initial_state.
Proof.
  unfold Band.main. simpl. apply run_chunks_all_pages.
  unfold Band.chunk_size. lia.
Qed.

Lemma process_pages_prefix doc n st :
  Band.process_pages doc 0 n st
  = for_each (Band.page_step doc)
             (enumerate_from 0 (firstn n (doc_pages doc))) st.
Proof.
  unfold Band.process_pages, Band.page_range. simpl.
  rewrite Nat.sub_0_r, firstn_min_length. reflexivity.
Qed.

(** ** Indices and records *)

Lemma dict_get_set_same k v d : dict_get k (dict_set k v d) = Some v.
Proof.
  induction d as [|[k' v'] d IH]; simpl.
  - rewrite (proj2 (key_eqb_eq k k) eq_refl). reflexivity.
  - destruct (key_eqb k' k) eqn:E; simpl; rewrite E; [reflexivity|exact IH].
Qed.

Lemma column_has_match_spec predict entries im :
  column_has_match predict entries im = true <->
  exists ent, In ent entries /\
    column_eligible predict (Column.li_cluster im) (Column.y_center im) ent.
Proof.
  unfold column_has_match. rewrite existsb_exists.
  split; intros (ent & Hin & H); exists ent; (split; [exact Hin|]);
    apply column_guard_spec; exact H.
Qed.

Lemma band_has_match_spec entries im :
  band_has_match entries im = true <->
  exists ent, In ent entries /\
    band_eligible Band.horizontal_tolerance Band.vertical_tolerance
      (ii_bbox im) ent.
Proof.
  unfold band_has_match. rewrite existsb_exists.
  split; intros (ent & Hin & H); exists ent; (split; [exact Hin|]);
    apply band_guard_spec; exact H.
Qed.

Lemma grows_from_initial k st :
  grows k initial_state st ->
  contiguous st /\ List.length (st_data st) = k /\
  st_index st = Z.of_nat k /\ List.length (st_files st) = k.
Proof.
  intro H. destruct (H contiguous_initial)
    as (C & (more & E & L) & I & (written & F & W)).
  simpl in *. subst more written. repeat split; auto; apply C.
Qed.

(** *** The runs complete when the backend and the clusterer do *)

(** The page gets as far as the clusterer: it has identifier entries
    and resolved image candidates. *)
Definition reaches_clustering (page : Page) : Prop :=
  Column.id_entries (pg_blocks page) <> [] /\ Column.image_info page <> [].


Definition extract_total (doc : Doc) : Prop :=
  forall xref, doc_extract_image doc xref <> None.

Lemma for_each_total {A S : Type} (body : S -> A -> Result S) :
  (forall s a, exists s', body s a = Ok s') ->
  forall l s, exists s', for_each body l s = Ok s'.
Proof.
  intros Hbody. induction l as [|a l IH]; intro s; simpl.
  - exists s. reflexivity.
  - destruct (Hbody s a) as [s1 E]. rewrite E. simpl. apply IH.
Qed.

Lemma save_match_total folder doc page_num xref closest st :
  extract_total doc ->
  exists st', save_match folder doc page_num xref closest st = Ok st'.
Proof.
  intro T. unfold save_match. destruct closest as [ent|]; [|eauto].
  specialize (T xref).
  destruct (doc_extract_image doc xref) as [[b x]|]; [eauto|congruence].
Qed.

Lemma for_each_total_in {A S : Type} (body : S -> A -> Result S) l :
  (forall s a, In a l -> exists s', body s a = Ok s') ->
  forall s, exists s', for_each body l s = Ok s'.
Proof.
  induction l as [|a l IH]; intros Hbody s; simpl.
  - exists s. reflexivity.
  - destruct (Hbody s a (or_introl eq_refl)) as [s1 E]. rewrite E. simpl.
    apply IH. intros s0 a0 Hin. apply Hbody. right. exact Hin.
Qed.

Lemma enumerate_from_In {A : Type} n (l : list A) p :
  In p (enumerate_from n l) -> In (snd p) l.
Proof.
  revert n. induction l as [|a l IH]; intro n; simpl; [tauto|].
  intros [<- | H]; [left; reflexivity|right; apply (IH _ H)].
Qed.

(** Every fit the run asks for succeeds. *)
Definition fits_succeed (kmeans : Column.KMeans) (doc : Doc) : Prop :=
  forall page, In page (doc_pages doc) -> reaches_clustering page ->
    kmeans Column.n_clusters (Column.image_coords (Column.image_info page))
    <> None.

Lemma column_run_total kmeans doc :
  extract_total doc -> fits_succeed kmeans doc ->
  exists st, Column.run kmeans doc = Ok st.
Proof.
  intros T K. unfold Column.run. apply for_each_total_in.
  intros s [page_num page] Hin. apply enumerate_from_In in Hin.
  specialize (K page Hin). unfold reaches_clustering in K.
  unfold Column.page_step. cbn [fst snd] in *.
  destruct (Column.id_entries (pg_blocks page)); [eauto|].
  destruct (pg_images page); [eauto|].
  destruct (Column.image_info page) as [|im0 infos]; [eauto|].
  destruct (kmeans _ _) as [fitted|].
  - apply for_each_total. intros s' im. apply save_match_total, T.
  - exfalso. apply K; [split; discriminate|reflexivity].
Qed.

Lemma band_run_total doc :
  extract_total doc -> exists st, Band.main None doc = Ok st.
Proof.
  intro T. rewrite band_main_fresh. apply for_each_total.
  intros s [page_num page]. unfold Band.page_step. cbn [fst snd].
  destruct (Band.image_info page) as [|im0 infos]; [eauto|].
  destruct (Band.id_entries (pg_blocks page)) as [|e0 entries]; [eauto|].
  apply (for_each_total (Band.image_step doc page_num (e0 :: entries))).
  intros s' im. apply save_match_total, T.
Qed.

(** C4. A sequence index is consumed only by the save block of a
    matched image: an image without eligible entry leaves [data],
    [image_index] and the files as they are; a matched image stores one
    record under the current index and advances it by one; and a
    completed run holds as many records (and has used as many indices and
    written as many files) as there were image candidates with an
    eligible entry, in both scripts; the runs do complete when every
    image extraction (and, in the clustering script, every fit) succeeds. *)
Theorem index_consumed_by_matches_only :
  (forall doc page_num predict entries st im,
     column_has_match predict entries im = false ->
     Column.image_step doc page_num predict entries st im = Ok st) /\
  (forall doc page_num entries st im,
     band_has_match entries im = false ->
     Band.image_step doc page_num entries st im = Ok st) /\
  (forall folder doc page_num xref ent st st',
     save_match folder doc page_num xref (Some ent) st = Ok st' ->
     st_index st' = (st_index st + 1)%Z /\
     exists r, dict_get (KInt (st_index st)) (st_data st') = Some r /\
               rec_page r = page_num /\
               rec_unique_number r = ent_id ent /\
               rec_text r = ent_text ent) /\
  (forall kmeans doc st,
     Column.run kmeans doc = Ok st ->
     List.length (st_data st) = column_matched kmeans (doc_pages doc) /\
     st_index st = Z.of_nat (column_matched kmeans (doc_pages doc)) /\
     List.length (st_files st) = column_matched kmeans (doc_pages doc)) /\
  (forall doc st,
     Band.main None doc = Ok st ->
     List.length (st_data st) = band_matched (doc_pages doc) /\
     st_index st = Z.of_nat (band_matched (doc_pages doc)) /\
     List.length (st_files st) = band_matched (doc_pages doc)) /\
  (forall kmeans doc,
     extract_total doc -> fits_succeed kmeans doc ->
     exists st, Column.run kmeans doc = Ok st) /\
  (forall doc, extract_total doc -> exists st, Band.main None doc = Ok st).
Proof.
  split; [|split; [|split; [|split; [|split; [|split]]]]];
    [| | | | |apply column_run_total|apply band_run_total].
  - intros doc page_num predict entries st im H.
    unfold Column.image_step.
    unfold column_has_match in H.
    rewrite <- is_some_nearest with (d := column_distance (Column.y_center im))
      in H.
    rewrite column_closest_nearest.
    destruct (nearest _ _ _); [discriminate|reflexivity].
  - intros doc page_num entries st im H.
    unfold Band.image_step, Band.closest_id.
    unfold band_has_match in H.
    rewrite <- is_some_nearest with (d := band_distance (ii_bbox im)) in H.
    rewrite band_closest_nearest.
    destruct (nearest _ _ _); [discriminate|reflexivity].
  - intros folder doc page_num xref ent st st'. unfold save_match.
    destruct (doc_extract_image doc xref) as [[image_bytes ext]|];
      [|discriminate].
    intros [= <-]. simpl. split; [reflexivity|].
    eexists. split; [apply dict_get_set_same|]. simpl. auto.
  - intros kmeans doc st H. unfold Column.run in H.
    apply column_pages_grow in H. rewrite enumerate_from_snd in H.
    apply grows_from_initial in H. tauto.
  - intros doc st H. rewrite band_main_fresh in H.
    apply band_pages_grow in H. rewrite enumerate_from_snd in H.
    apply grows_from_initial in H. tauto.
Qed.

Lemma firstn_le_split {A : Type} n m (l : list A) :
  (n <= m)%nat -> firstn m l = firstn n l ++ firstn (m - n) (skipn n l).
Proof.
  intro H. rewrite <- firstn_add_skipn. f_equal. lia.
Qed.

Lemma for_each_prefix_grows (body : State -> nat * Page -> Result State)
    (count : list Page -> nat) :
  (forall l st st', for_each body l st = Ok st' ->
                    grows (count (map snd l)) st st') ->
  forall pages n st,
    for_each body (enumerate_from 0 (firstn n pages)) initial_state = Ok st ->
    contiguous st /\
    List.length (st_data st) = count (firstn n pages) /\
    forall m st', (n <= m)%nat ->
      for_each body (enumerate_from 0 (firstn m pages)) initial_state = Ok st' ->
      exists more, st_data st' = st_data st ++ more.
Proof.
  intros Hg pages n st H.
  pose proof (Hg _ _ _ H) as G. rewrite enumerate_from_snd in G.
  apply grows_from_initial in G as (C & L & _).
  repeat split; try apply C; [exact L|].
  intros m st' Hle H'.
  rewrite (firstn_le_split n m) in H' by exact Hle.
  rewrite enumerate_from_app, for_each_app, H in H'. simpl in H'.
  apply Hg in H'. destruct (H' C) as (_ & (more & E & _) & _).
  exists more. exact E.
Qed.

(** C10. Contiguous keys: starting from an empty Mapping, after the
    first [n] pages the keys of [data] are [0 .. N-1] in insertion order,
    [N] being the number of records, which is the number of matched
    images so far, and [image_index] is [N]; the Mapping after any later
    page is this one followed by new records, so that every record sits
    under a fresh key and none is overwritten or changed. *)
Theorem contiguous_keys :
  (forall kmeans doc n st,
     for_each (Column.page_step kmeans doc)
       (enumerate_from 0 (firstn n (doc_pages doc))) initial_state = Ok st ->
     keys (st_data st) = int_keys (List.length (st_data st)) /\
     st_index st = Z.of_nat (List.length (st_data st)) /\
     List.length (st_data st) = column_matched kmeans (firstn n (doc_pages doc)) /\
     forall m st', (n <= m)%nat ->
       for_each (Column.page_step kmeans doc)
         (enumerate_from 0 (firstn m (doc_pages doc))) initial_state = Ok st' ->
       exists more, st_data st' = st_data st ++ more) /\
  (forall doc n st,
     Band.process_pages doc 0 n initial_state = Ok st ->
     keys (st_data st) = int_keys (List.length (st_data st)) /\
     st_index st = Z.of_nat (List.length (st_data st)) /\
     List.length (st_data st) = band_matched (firstn n (doc_pages doc)) /\
     forall m st', (n <= m)%nat ->
       Band.process_pages doc 0 m initial_state = Ok st' ->
       exists more, st_data st' = st_data st ++ more) /\
  (forall kmeans doc,
     Column.run kmeans doc
     = for_each (Column.page_step kmeans doc)
         (enumerate_from 0 (firstn (List.length (doc_pages doc)) (doc_pages doc)))
         initial_state) /\
  (forall doc,
     Band.main None doc
     = Band.process_pages doc 0 (List.length (doc_pages doc)) initial_state).
Proof.
  split; [|split; [|split]].
  - intros kmeans doc n st H.
    destruct (for_each_prefix_grows _ _ (column_pages_grow kmeans doc) _ _ _ H)
      as ([K I] & L & E).
    auto.
  - intros doc n st H. rewrite process_pages_prefix in H.
    destruct (for_each_prefix_grows _ _ (band_pages_grow doc) _ _ _ H)
      as ([K I] & L & E).
    repeat split; auto.
    intros m st' Hle H'. rewrite process_pages_prefix in H'.
    apply (E m st' Hle H').
  - intros kmeans doc. rewrite firstn_all. reflexivity.
  - intro doc. rewrite band_main_fresh, process_pages_prefix, firstn_all.
    reflexivity.
Qed.

(** ** A sample page

    Three columns. Column 0 holds two plates one above the other with a
    single caption under the lower one; column 1 holds a plate with a
    caption naming two identifiers; column 2 holds a plate without
    caption; a fifth image block has no placement on the page. *)

Definition plate_A : BBox := mkBBox 50 50 150 150.
Definition plate_B : BBox := mkBBox 50 160 150 260.
Definition plate_C : BBox := mkBBox 250 50 350 150.
Definition plate_D : BBox := mkBBox 450 50 550 150.
Definition plate_E : BBox := mkBBox 450 400 550 500.

Definition sample_page : Page :=
  {| pg_blocks :=
       [ ImageBlock plate_A;
         ImageBlock plate_C;
         TextBlock (mkBBox 260 160 340 180) [["KM# 5-10.5"; "and"; "KM# 6.12"]];
         ImageBlock plate_B;
         ImageBlock plate_D;
         ImageBlock plate_E;
         TextBlock (mkBBox 60 270 140 290) [["Bust right"]; ["KM# 488"]];
         TextBlock (mkBBox 60 10 140 30) [["GERMAN STATES"]] ];
     pg_images :=
       [ mkPageImage 11 [mkBBox (101 # 2) 50 150 150];
         mkPageImage 12 [plate_B];
         mkPageImage 13 [plate_C];
         mkPageImage 14 [plate_D] ] |}.

Definition sample_doc : Doc :=
  {| doc_pages := [ {| pg_blocks := []; pg_images := [] |}; sample_page ];
     doc_extract_image := fun xref => Some ("bytes"%string, "png"%string) |}.

(** A clusterer for the sample: like scikit-learn it refuses fewer
    samples than clusters; its columns are split at x = 200 and x = 400. *)
Definition sample_predict (x : Q) : nat :=
  if Qltb x 200 then 0%nat else if Qltb x 400 then 1%nat else 2%nat.

Definition sample_kmeans : Column.KMeans :=
  fun n_clusters X =>
    if (List.length X <? n_clusters)%nat then None
    else Some {| Column.labels := map sample_predict X;
                 Column.predict := sample_predict |}.

Definition summary (st : State) : list (PyKey * (string * nat * string)) :=
  map (fun kv => (fst kv, (rec_image (snd kv), rec_page (snd kv),
                            rec_unique_number (snd kv))))
      (st_data st).

Definition result_summary (r : Result State)
    : option (list (PyKey * (string * nat * string)) * Z) :=
  match r with
  | Ok st => Some (summary st, st_index st)
  | Raise _ => None
  end.

Example sample_run_column :
  result_summary (Column.run sample_kmeans sample_doc)
  = Some ([(KInt 0, ("img_0.png"%string, 1%nat, "KM# 488"%string));
           (KInt 1, ("img_1.png"%string, 1%nat, "KM# 5-10.5"%string));
           (KInt 2, ("img_2.png"%string, 1%nat, "KM# 488"%string))], 3%Z).
Proof. vm_compute. reflexivity. Qed.

Example sample_run_band :
  result_summary (Band.main None sample_doc)
  = Some ([(KInt 0, ("img_0.png"%string, 1%nat, "KM# 488"%string));
           (KInt 1, ("img_1.png"%string, 1%nat, "KM# 488"%string));
           (KInt 2, ("img_2.png"%string, 1%nat, "KM# 5-10.5"%string))], 3%Z).
Proof. vm_compute. reflexivity. Qed.

(** Four image candidates on the sample page, three of them matched. *)
Example sample_counts :
  List.length (Column.image_info sample_page) = 4%nat /\
  List.length (Band.image_info sample_page) = 4%nat /\
  column_matched sample_kmeans (doc_pages sample_doc) = 3%nat /\
  band_matched (doc_pages sample_doc) = 3%nat.
Proof. vm_compute. auto. Qed.

(** ** Several images, one identifier *)

Lemma dict_get_set_other k k' v d :
  k <> k' -> dict_get k (dict_set k' v d) = dict_get k d.
Proof.
  intro Hne. induction d as [|[k0 v0] d IH]; simpl.
  - destruct (key_eqb k' k) eqn:E; [|reflexivity].
    apply key_eqb_eq in E. congruence.
  - destruct (key_eqb k0 k') eqn:E1; simpl.
    + apply key_eqb_eq in E1. subst k0.
      destruct (key_eqb k' k) eqn:E2; [|reflexivity].
      apply key_eqb_eq in E2. congruence.
    + rewrite IH. reflexivity.
Qed.

Lemma column_single_entry predict c y ent :
  predict (Column.ent_x_center ent) = c ->
  (y < Column.ent_y_center ent)%Q ->
  Column.closest_id predict c y [ent] = Some ent.
Proof.
  intros Hc Hy. unfold Column.closest_id, Column.match_step. simpl.
  rewrite (proj2 (Nat.eqb_eq _ _) Hc), (proj2 (Qltb_lt _ _) Hy).
  reflexivity.
Qed.

(** C7. Duplicate assignment: two images of one column that both lie
    strictly above a single identifier entry both select that entry, and
    the image loop stores a record for each of them, under consecutive
    indices and with the same identifier; on the sample page the records
    0 and 2 both carry "KM# 488". *)
Theorem duplicate_assignment :
  (forall predict ent im1 im2,
     predict (Column.ent_x_center ent) = Column.li_cluster im1 ->
     predict (Column.ent_x_center ent) = Column.li_cluster im2 ->
     (Column.y_center im1 < Column.ent_y_center ent)%Q ->
     (Column.y_center im2 < Column.ent_y_center ent)%Q ->
     Column.closest_id predict (Column.li_cluster im1) (Column.y_center im1)
       [ent] = Some ent /\
     Column.closest_id predict (Column.li_cluster im2) (Column.y_center im2)
       [ent] = Some ent /\
     forall doc page_num st b1 x1 b2 x2,
       doc_extract_image doc (ii_xref (Column.li_img im1)) = Some (b1, x1) ->
       doc_extract_image doc (ii_xref (Column.li_img im2)) = Some (b2, x2) ->
       exists st' r1 r2,
         for_each (Column.image_step doc page_num predict [ent]) [im1; im2] st
         = Ok st' /\
         st_index st' = (st_index st + 2)%Z /\
         dict_get (KInt (st_index st)) (st_data st') = Some r1 /\
         dict_get (KInt (st_index st + 1)) (st_data st') = Some r2 /\
         rec_unique_number r1 = ent_id ent /\
         rec_unique_number r2 = ent_id ent) /\
  result_summary (Column.run sample_kmeans sample_doc)
  = Some ([(KInt 0, ("img_0.png"%string, 1%nat, "KM# 488"%string));
           (KInt 1, ("img_1.png"%string, 1%nat, "KM# 5-10.5"%string));
           (KInt 2, ("img_2.png"%string, 1%nat, "KM# 488"%string))], 3%Z).
Proof.
  split; [|vm_compute; reflexivity].
  intros predict ent im1 im2 Hc1 Hc2 Hy1 Hy2.
  pose proof (column_single_entry _ _ _ _ Hc1 Hy1) as E1.
  pose proof (column_single_entry _ _ _ _ Hc2 Hy2) as E2.
  split; [exact E1|]. split; [exact E2|].
  intros doc page_num st b1 x1 b2 x2 X1 X2.
  cbn [for_each]. unfold Column.image_step.
  rewrite E1. unfold save_match at 1. rewrite X1. cbn [bind].
  rewrite E2. unfold save_match. cbn [st_index st_data st_files]. rewrite X2.
  do 3 eexists. split; [reflexivity|]. cbn [st_index st_data].
  split; [lia|]. split; [|split].
  - rewrite dict_get_set_other, dict_get_set_same; [reflexivity|].
    intros [= H]. lia.
  - apply dict_get_set_same.
  - split; reflexivity.
Qed.

(** ** Resolving the resource of an image block *)

(** The placement of an image on the page, as the script reads it: the
    first rectangle of [page.get_image_rects(xref)], when there is one. *)
Definition placement (img : PageImage) : option BBox := hd_error (pi_rects img).

(** Both coordinates of the corner differ by less than 2 units. *)
Definition within_tolerance (rect : BBox) (x0 y0 : Q) : Prop :=
  (Qabs (bx0 rect - x0) < 2)%Q /\ (Qabs (by0 rect - y0) < 2)%Q.

Lemma near_spec rect x0 y0 :
  Column.near rect x0 y0 = true <-> within_tolerance rect x0 y0.
Proof.
  unfold Column.near, within_tolerance.
  rewrite andb_true_iff, !Qltb_lt. reflexivity.
Qed.

(** No image of the page is placed within tolerance of the corner. *)
Definition unplaced (page_images : list PageImage) (x0 y0 : Q) : Prop :=
  forall img rect, In img page_images -> placement img = Some rect ->
                   ~ within_tolerance rect x0 y0.


Lemma matching_xref_Some page_images x0 y0 xref :
  Column.matching_xref page_images x0 y0 = Some xref <->
  exists l1 img rect l2,
    page_images = l1 ++ img :: l2 /\
    unplaced l1 x0 y0 /\
    placement img = Some rect /\ within_tolerance rect x0 y0 /\
    pi_xref img = xref.
Proof.
  revert xref. induction page_images as [|img l IH]; intro xref; simpl.
  - split; [discriminate|]. intros (l1 & i & r & l2 & E & _).
    destruct l1; discriminate.
  - assert (Hskip :
      (forall rect, placement img = Some rect -> ~ within_tolerance rect x0 y0) ->
      (Column.matching_xref l x0 y0 = Some xref <->
       exists l1 img0 rect l2,
         img :: l = l1 ++ img0 :: l2 /\ unplaced l1 x0 y0 /\
         placement img0 = Some rect /\ within_tolerance rect x0 y0 /\
         pi_xref img0 = xref)).
    { intro Hno. rewrite IH. split.
      - intros (l1 & i & r & l2 & -> & U & P & W & X).
        exists (img :: l1), i, r, l2.
        split; [reflexivity|]. split; [|auto].
        intros img' rect' [<- | Hin]; [apply Hno|apply U; exact Hin].
      - intros (l1 & i & r & l2 & E & U & P & W & X).
        destruct l1 as [|i0 l1]; simpl in E.
        + injection E as <- <-. exfalso. apply (Hno r P W).
        + injection E as <- ->. exists l1, i, r, l2.
          split; [reflexivity|]. split; [|auto].
          intros img' rect' Hin. apply U. right. exact Hin. }
    unfold placement in *.
    destruct (pi_rects img) as [|rect rest] eqn:R.
    + apply Hskip. simpl. discriminate.
    + destruct (Column.near rect x0 y0) eqn:N.
      * split.
        -- intros [= <-]. exists [], img, rect, l.
           split; [reflexivity|]. split; [intros i r []|].
           split; [unfold placement; rewrite ?R; reflexivity|].
           split; [apply near_spec; exact N|reflexivity].
        -- intros (l1 & i & r & l2 & E & U & P & W & X).
           destruct l1 as [|i0 l1]; simpl in E.
           ++ injection E as <- <-. congruence.
           ++ injection E as <- ->. exfalso.
              apply (U img rect);
                [left; reflexivity|unfold placement; rewrite ?R; reflexivity|].
              apply near_spec. exact N.
      * apply Hskip. simpl. intros r [= <-]. rewrite <- near_spec. congruence.
Qed.




(** On the sample page the fifth image block has no placement and is
    left out; the block of plate A is found although its placement is
    half a unit off. *)
Example sample_unresolved :
  Column.image_of_block (pg_images sample_page) (ImageBlock plate_E) = [] /\
  map ii_xref (Column.image_of_block (pg_images sample_page) (ImageBlock plate_A))
  = [11%Z].
Proof. vm_compute. auto. Qed.

(** ** The cluster count *)

Lemma column_images_never_value_error doc page_num predict entries l st :
  for_each (Column.image_step doc page_num predict entries) l st
  <> Raise ValueError.
Proof.
  revert st. induction l as [|im l IH]; intro st; simpl; [discriminate|].
  unfold Column.image_step at 1. unfold save_match.
  destruct (Column.closest_id _ _ _ _) as [ent|]; simpl; [|apply IH].
  destruct (doc_extract_image _ _) as [[b x]|]; simpl; [apply IH|discriminate].
Qed.

Lemma column_page_step_reached kmeans doc st page_num page :
  reaches_clustering page ->
  Column.page_step kmeans doc st (page_num, page)
  = match kmeans Column.n_clusters
            (Column.image_coords (Column.image_info page)) with
    | None => Raise ValueError
    | Some fitted =>
        for_each
          (Column.image_step doc page_num (Column.predict fitted)
             (Column.id_entries (pg_blocks page)))
          (Column.sorted_by_y
             (Column.attach_labels (Column.labels fitted)
                (Column.image_info page))) st
    end.
Proof.
  intros [He Hi]. unfold Column.page_step. cbn [fst snd].
  destruct (Column.id_entries (pg_blocks page)) as [|e0 entries];
    [congruence|].
  destruct (pg_images page) as [|i0 images] eqn:Ei.
  { exfalso. apply Hi. destruct page as [blocks imgs]. simpl in Ei. subst imgs.
    apply column_image_info_no_images. }
  destruct (Column.image_info page) as [|im0 infos]; [congruence|].
  reflexivity.
Qed.

(** A page with two image candidates and one caption. *)
Definition two_plate_page : Page :=
  {| pg_blocks :=
       [ ImageBlock plate_A; ImageBlock plate_C;
         TextBlock (mkBBox 60 270 140 290) [["KM# 488"]] ];
     pg_images := [ mkPageImage 11 [plate_A]; mkPageImage 13 [plate_C] ] |}.

Example two_plate_page_reaches : reaches_clustering two_plate_page.
Proof. split; vm_compute; discriminate. Qed.

(** C5 as stated fails: on a page with two image candidates the
    clusterer is asked for 3 clusters, not for min(3, 2) = 2; a clusterer
    that fits two clusters on these samples but refuses, as scikit-learn
    does, more clusters than samples, makes the page fail. *)
Lemma two_plates_three_clusters :
  List.length (Column.image_info two_plate_page) = 2%nat /\
  Column.n_clusters <> Nat.min Column.n_clusters
                         (List.length (Column.image_info two_plate_page)) /\
  sample_kmeans (Nat.min Column.n_clusters
                   (List.length (Column.image_info two_plate_page)))
    (Column.image_coords (Column.image_info two_plate_page)) <> None /\
  Column.page_step sample_kmeans sample_doc initial_state (0%nat, two_plate_page)
  = Raise ValueError.
Proof.
  split; [vm_compute; reflexivity|].
  split; [vm_compute; discriminate|].
  split; [vm_compute; discriminate|].
  vm_compute. reflexivity.
Qed.

(** C5 (amended). On every page that reaches clustering the clusterer
    is run once, with the fixed count of 3 clusters, on the x-centers of
    the image candidates, whatever their number: the outcome of the page
    is that of this fit (the page is processed with its model, and fails
    when the fit raises), and what the clusterer would do with another
    number of clusters plays no role; 3 is min(3, candidateCount)
    exactly from three candidates on. *)
Theorem clusterer_fixed_count :
  (forall kmeans doc st page_num page,
     reaches_clustering page ->
     let X := Column.image_coords (Column.image_info page) in
     (kmeans 3%nat X = None <->
      Column.page_step kmeans doc st (page_num, page) = Raise ValueError) /\
     (forall fitted, kmeans 3%nat X = Some fitted ->
        Column.page_step kmeans doc st (page_num, page)
        = for_each
            (Column.image_step doc page_num (Column.predict fitted)
               (Column.id_entries (pg_blocks page)))
            (Column.sorted_by_y
               (Column.attach_labels (Column.labels fitted)
                  (Column.image_info page))) st)) /\
  (forall kmeans1 kmeans2 : Column.KMeans,
     (forall X, kmeans1 3%nat X = kmeans2 3%nat X) ->
     forall doc st p,
       Column.page_step kmeans1 doc st p = Column.page_step kmeans2 doc st p) /\
  (forall page,
     Column.n_clusters
     = Nat.min Column.n_clusters (List.length (Column.image_info page)) <->
     (3 <= List.length (Column.image_info page))%nat).
Proof.
  split; [|split].
  - intros kmeans doc st page_num page R X.
    rewrite (column_page_step_reached _ _ _ _ _ R).
    fold X. change Column.n_clusters with 3%nat.
    destruct (kmeans 3%nat X) as [fitted|]; split.
    + split; [discriminate|]. intro H. exfalso.
      apply (column_images_never_value_error _ _ _ _ _ _ H).
    + intros f [= <-]. reflexivity.
    + split; reflexivity.
    + discriminate.
  - intros kmeans1 kmeans2 H doc st [page_num page].
    unfold Column.page_step. cbn [fst snd].
    change Column.n_clusters with 3%nat. rewrite H. reflexivity.
  - intro page. unfold Column.n_clusters. lia.
Qed.

(** ** Resuming from a persisted Mapping *)

Definition is_str_key (k : PyKey) : Prop :=
  match k with KStr _ => True | KInt _ => False end.

Lemma dict_set_str_keys s v d :
  Forall is_str_key (keys d) -> Forall is_str_key (keys (dict_set (KStr s) v d)).
Proof.
  induction d as [|[k' v'] d IH]; simpl; intro H.
  - constructor; [exact I|constructor].
  - inversion H as [|? ? Hk Hd]; subst.
    destruct (key_eqb k' (KStr s)); simpl; constructor; auto.
Qed.

Lemma dict_set_nonempty k v d : dict_set k v d <> [].
Proof.
  destruct d as [|[k' v'] d]; simpl; [discriminate|].
  destruct (key_eqb k' k); discriminate.
Qed.

Lemma json_load_str_keys members :
  Forall is_str_key (keys (Band.json_load members)) /\
  (members <> [] -> Band.json_load members <> []).
Proof.
  unfold Band.json_load.
  assert (G : forall d,
    Forall is_str_key (keys d) ->
    Forall is_str_key
      (keys (fold_left (fun d m => dict_set (KStr (fst m)) (snd m) d) members d))
    /\ (d <> [] \/ members <> [] ->
        fold_left (fun d m => dict_set (KStr (fst m)) (snd m) d) members d <> [])).
  { induction members as [|m l IH]; intros d Hd; simpl.
    - split; [exact Hd|]. intros [H|H]; congruence.
    - destruct (IH (dict_set (KStr (fst m)) (snd m) d)) as [H1 H2].
      + apply dict_set_str_keys, Hd.
      + split; [exact H1|]. intros _. apply H2. left. apply dict_set_nonempty. }
  destruct (G [] (Forall_nil _)) as [H1 H2].
  split; [exact H1|]. intro H. apply H2. right. exact H.
Qed.

Lemma py_max_str_keys ks default :
  ks <> [] -> Forall is_str_key ks ->
  exists s, Band.py_max ks default = Ok (KStr s).
Proof.
  destruct ks as [|k rest]; [congruence|]. intros _ H.
  inversion H as [|? ? Hk Hrest]; subst. simpl.
  destruct k as [z|s]; [destruct Hk|]. clear H Hk.
  revert s. induction rest as [|k rest IH]; intro s; simpl.
  - exists s. reflexivity.
  - inversion Hrest as [|? ? Hk Hr]; subst.
    destruct k as [z|s']; [destruct Hk|]. simpl.
    destruct (String.ltb s s'); apply IH; exact Hr.
Qed.

(** A Mapping read back from the JSON file makes line 128 raise. *)
Lemma start_index_loaded_raises members :
  members <> [] ->
  Band.start_index (Band.json_load members) = Raise TypeError.
Proof.
  intro Hne. destruct (json_load_str_keys members) as [Hs Hn].
  specialize (Hn Hne). unfold Band.start_index.
  destruct (Band.json_load members) as [|kv d] eqn:E; [congruence|].
  destruct (py_max_str_keys (keys (kv :: d)) (KInt (-1))) as [s Hmax];
    [discriminate|exact Hs|].
  rewrite Hmax. reflexivity.
Qed.

Definition sample_record (i : string) : MatchRecord :=
  {| rec_image := "img_" ++ i ++ ".png"; rec_page := 0;
     rec_unique_number := "KM# 488"; rec_text := "KM# 488" |}%string.

(** The content of a JSON file holding the records 0 to 4. *)
Definition persisted_0_4 : list (string * MatchRecord) :=
  map (fun i => (i, sample_record i)) ["0"; "1"; "2"; "3"; "4"]%string.

(** The same Mapping as the run that wrote it held it, under integer keys. *)
Definition in_memory_0_4 : Dict :=
  map (fun i => (KInt i, sample_record (str_of_Z i))) [0; 1; 2; 3; 4]%Z.

(** C3, on the code: with the Mapping of indices 0 to 4 read back from
    the file, whose keys [json.load] returns as strings, the computation
    of the first new index raises [TypeError] and so does the run, for
    every document and every non-empty persisted Mapping; the expression
    yields 5 only on integer keys, and 0 when there is no Mapping. *)
Theorem resumption_index_raises :
  Band.start_index (Band.json_load persisted_0_4) = Raise TypeError /\
  (forall doc, Band.main (Some persisted_0_4) doc = Raise TypeError) /\
  (forall members doc,
     members <> [] -> Band.main (Some members) doc = Raise TypeError) /\
  Band.start_index in_memory_0_4 = Ok 5%Z /\
  Band.start_index [] = Ok 0%Z /\
  (forall doc st, Band.main None doc = Ok st ->
                  Band.main (Some []) doc = Ok st).
Proof.
  assert (G : forall members doc,
     members <> [] -> Band.main (Some members) doc = Raise TypeError).
  { intros members doc Hne. unfold Band.main.
    rewrite (start_index_loaded_raises members Hne). reflexivity. }
  split; [vm_compute; reflexivity|].
  split; [intro doc; apply G; discriminate|].
  split; [exact G|].
  split; [vm_compute; reflexivity|].
  split; [reflexivity|].
  intros doc st H. exact H.
Qed.

(** ** The sample document, end to end *)

Example sample_reaches : reaches_clustering sample_page.
Proof. split; vm_compute; discriminate. Qed.

Example sample_fits_succeed : fits_succeed sample_kmeans sample_doc.
Proof.
  intros page [<- | [<- | []]] [He Hi].
  - exfalso. apply He. reflexivity.
  - vm_compute. discriminate.
Qed.

Example sample_extract_total : extract_total sample_doc.
Proof. intro xref. discriminate. Qed.

(** After each prefix of the pages of the sample the keys are
    contiguous. *)
Example sample_prefix_keys :
  map (fun n =>
         match Band.process_pages sample_doc 0 n initial_state with
         | Ok st => Some (keys (st_data st), st_index st)
         | Raise _ => None
         end) [0; 1; 2]%nat
  = [Some ([], 0%Z); Some ([], 0%Z); Some ([KInt 0; KInt 1; KInt 2], 3%Z)].
Proof. vm_compute. reflexivity. Qed.

(** A restart on the Mapping the first run wrote stops at line 128. *)
Example sample_restart :
  Band.main (Some persisted_0_4) sample_doc = Raise TypeError.
Proof. vm_compute. reflexivity. Qed.

(** ** The theorems at the samples *)

Definition column_three : list Entry :=
  [entry_at "B" 100 300; entry_at "other" 400 110; entry_at "A" 100 150].

(** The entry chosen on the three-entry example is eligible and no
    farther than the other entry of the column. *)
Lemma column_association_sample :
  column_eligible example_predict 0 100 (entry_at "A" 100 150) /\
  (column_distance 100 (entry_at "A" 100 150)
   <= column_distance 100 (entry_at "B" 100 300))%Q.
Proof.
  destruct (column_association example_predict 0 100 column_three)
    as (_ & _ & H & _).
  destruct (H _ column_example) as (Hin & He & Hmin).
  split; [exact He|].
  apply Hmin; [left; reflexivity|].
  split; vm_compute; reflexivity.
Defined.

Lemma band_association_sample :
  band_eligible Band.horizontal_tolerance Band.vertical_tolerance example_image
    (entry_centered "in" 245 110).
Proof.
  destruct (band_association Band.horizontal_tolerance Band.vertical_tolerance
              example_image [entry_centered "in" 245 110]) as (_ & _ & H).
  destruct (H _ band_example_245) as (_ & He & _). exact He.
Defined.

Lemma tie_break_sample :
  earliest_nearest (band_eligible Band.horizontal_tolerance
                      Band.vertical_tolerance example_image)
    (band_distance example_image)
    [entry_centered "first" 140 110; entry_centered "second" 160 110]
    (entry_centered "first" 140 110).
Proof.
  destruct (tie_break_earliest example_predict 0 100
              Band.horizontal_tolerance Band.vertical_tolerance example_image
              [entry_centered "first" 140 110; entry_centered "second" 160 110]
              (entry_centered "first" 140 110)) as (_ & _ & _ & H).
  apply H. exact tie_example_band.
Defined.

(** Both runs on the sample document complete with three records. *)
Lemma index_consumed_sample :
  (exists st, Column.run sample_kmeans sample_doc = Ok st /\
              List.length (st_data st) = 3%nat /\ st_index st = 3%Z) /\
  (exists st, Band.main None sample_doc = Ok st /\
              List.length (st_data st) = 3%nat /\ st_index st = 3%Z).
Proof.
  destruct index_consumed_by_matches_only
    as (_ & _ & _ & HC & HB & TC & TB).
  split.
  - destruct (TC sample_kmeans sample_doc sample_extract_total
                sample_fits_succeed) as [st E].
    exists st. split; [exact E|].
    destruct (HC _ _ _ E) as (L & I & _). rewrite L, I.
    split; vm_compute; reflexivity.
  - destruct (TB sample_doc sample_extract_total) as [st E].
    exists st. split; [exact E|].
    destruct (HB _ _ E) as (L & I & _). rewrite L, I.
    split; vm_compute; reflexivity.
Defined.

Lemma contiguous_keys_sample :
  exists st, Band.process_pages sample_doc 0 2 initial_state = Ok st /\
             keys (st_data st) = [KInt 0; KInt 1; KInt 2] /\
             st_index st = 3%Z.
Proof.
  destruct contiguous_keys as (_ & HB & _).
  destruct (Band.process_pages sample_doc 0 2 initial_state) as [st|e] eqn:E;
    [|vm_compute in E; discriminate].
  exists st. split; [reflexivity|].
  destruct (HB sample_doc 2%nat st E) as (K & I & L & _).
  rewrite K, I, L. split; vm_compute; reflexivity.
Defined.


Lemma clusterer_fixed_count_sample :
  reaches_clustering two_plate_page /\
  Column.page_step sample_kmeans sample_doc initial_state (0%nat, two_plate_page)
  = Raise ValueError.
Proof.
  split; [exact two_plate_page_reaches|].
  destruct clusterer_fixed_count as (H & _).
  destruct (H sample_kmeans sample_doc initial_state 0%nat two_plate_page
              two_plate_page_reaches) as (Hnone & _).
  apply Hnone. vm_compute. reflexivity.
Defined.

Definition plate_labelled (xref : Z) (b : BBox) : Column.Labelled :=
  {| Column.li_img := {| ii_xref := xref; ii_center := center_of b;
                         ii_bbox := b |};
     Column.li_cluster := sample_predict (fst (center_of b)) |}.

Definition caption_488 : Entry :=
  {| ent_id := "KM# 488"; ent_text := "Bust right KM# 488";
     ent_bbox := mkBBox 60 270 140 290 |}.

Lemma duplicate_assignment_sample :
  Column.closest_id sample_predict 0 100 [caption_488] = Some caption_488 /\
  Column.closest_id sample_predict 0 210 [caption_488] = Some caption_488.
Proof.
  destruct duplicate_assignment as (H & _).
  destruct (H sample_predict caption_488
              (plate_labelled 11 plate_A) (plate_labelled 12 plate_B))
    as (H1 & H2 & _); try (vm_compute; reflexivity).
  split; [exact H1|exact H2].
Defined.

(** * Further properties of the scripts *)

(** ** Pages and chunks *)

Lemma enumerate_from_fst {A : Type} n (l : list A) :
  map fst (enumerate_from n l) = seq n (List.length l).
Proof.
  revert n. induction l as [|a l IH]; intro n; simpl; [reflexivity|].
  rewrite IH. reflexivity.
Qed.

Lemma enumerate_from_In_iff {A : Type} n (l : list A) i a :
  In (i, a) (enumerate_from n l) <->
  (n <= i)%nat /\ nth_error l (i - n) = Some a.
Proof.
  revert n. induction l as [|b l IH]; intro n; simpl.
  - split; [tauto|]. intros [_ H]. destruct (i - n)%nat; discriminate.
  - rewrite IH. split.
    + intros [[= <- <-] | [Hle H]].
      * split; [lia|]. rewrite Nat.sub_diag. reflexivity.
      * split; [lia|]. replace (i - n)%nat with (S (i - S n)) by lia. exact H.
    + intros [Hle H]. destruct (Nat.eq_dec i n) as [->|Hne].
      * left. rewrite Nat.sub_diag in H. simpl in H. congruence.
      * right. split; [lia|].
        replace (i - n)%nat with (S (i - S n)) in H by lia. exact H.
Qed.

(** X2. [process_pages] visits exactly the pages whose number lies in
    [[start_page, end_page)] and below [len(doc)], each once, in
    increasing order and under its own number; an [end_page] past the
    end of the document is cut off, a [start_page] past the end visits
    nothing. *)
Theorem page_range_visits (doc : Doc) (start_page end_page : nat) :
  map fst (Band.page_range doc start_page end_page)
  = seq start_page
        (Nat.min end_page (List.length (doc_pages doc)) - start_page) /\
  (forall n page,
     In (n, page) (Band.page_range doc start_page end_page) <->
     (start_page <= n < end_page)%nat /\
     nth_error (doc_pages doc) n = Some page) /\
  ((List.length (doc_pages doc) <= start_page)%nat ->
   forall st, Band.process_pages doc start_page end_page st = Ok st).
Proof.
  unfold Band.page_range. split; [|split].
  - rewrite enumerate_from_fst, length_firstn, length_skipn. f_equal. lia.
  - intros n page. rewrite enumerate_from_In_iff, nth_error_firstn.
    rewrite nth_error_skipn.
    destruct (Nat.ltb_spec (n - start_page)
                (Nat.min end_page (List.length (doc_pages doc)) - start_page))
      as [Hlt|Hge].
    + split.
      * intros [Hle H]. replace (start_page + (n - start_page))%nat with n in H
          by lia. split; [lia|exact H].
      * intros [Hle H]. split; [lia|].
        replace (start_page + (n - start_page))%nat with n by lia. exact H.
    + split; [intros [_ H]; discriminate|].
      intros [Hle H]. exfalso.
      assert (n < List.length (doc_pages doc))%nat
        by (apply nth_error_Some; congruence).
      lia.
  - intros Hlen st. unfold Band.process_pages, Band.page_range.
    rewrite skipn_all2 by exact Hlen. rewrite firstn_nil. reflexivity.
Qed.

(** X1. Whatever the (positive) chunk size, the chunked main loop
    processes every page of the document exactly once, in order: it is
    one call of [process_pages] over the whole document, and so also one
    pass of the page body over the numbered pages. *)
Theorem chunked_run_is_one_pass (doc : Doc) (chunk : nat) (st : State) :
  (0 < chunk)%nat ->
  Band.run_chunks doc chunk st
  = Band.process_pages doc 0 (List.length (doc_pages doc)) st /\
  Band.run_chunks doc chunk st
  = for_each (Band.page_step doc) (enumerate_from 0 (doc_pages doc)) st.
Proof.
  intro Hc. rewrite process_pages_prefix, firstn_all.
  split; apply run_chunks_all_pages, Hc.
Qed.

Lemma chunked_run_is_one_pass_sample :
  (0 < 1)%nat /\
  Band.run_chunks sample_doc 1 initial_state
  = Band.process_pages sample_doc 0 2 initial_state.
Proof.
  split; [lia|].
  apply (proj1 (chunked_run_is_one_pass sample_doc 1 initial_state
                  (Nat.lt_0_succ 0))).
Defined.

(** ** The order in which images are processed *)

Definition y_le (a b : Column.Labelled) : Prop :=
  (Column.y_center a <= Column.y_center b)%Q.

(** The images of [l] whose vertical center equals [q], in list order. *)
Definition at_height (q : Q) (l : list Column.Labelled) : list Column.Labelled :=
  filter (fun im => Qeq_bool (Column.y_center im) q) l.

Lemma insert_by_y_sorted im l :
  StronglySorted y_le l -> StronglySorted y_le (Column.insert_by_y im l).
Proof.
  induction 1 as [|im' l Hs IH Hall]; simpl.
  - constructor; constructor.
  - destruct (Qleb (Column.y_center im) (Column.y_center im')) eqn:E.
    + apply Qleb_le in E. constructor; [constructor; assumption|].
      constructor; [exact E|].
      eapply Forall_impl; [|exact Hall].
      intros a Ha. unfold y_le in *. lra.
    + apply Qleb_gt in E. constructor; [exact IH|].
      assert (P : Permutation (Column.insert_by_y im l) (im :: l)).
      { clear. induction l as [|b l IH]; simpl; [reflexivity|].
        destruct (Qleb _ _); [reflexivity|]. rewrite IH. apply perm_swap. }
      apply Forall_forall. intros a Ha.
      apply (Permutation_in _ P) in Ha. destruct Ha as [<- | Ha].
      * unfold y_le. lra.
      * rewrite Forall_forall in Hall. apply Hall, Ha.
Qed.

Lemma at_height_insert q im l :
  at_height q (Column.insert_by_y im l) = at_height q (im :: l).
Proof.
  unfold at_height. induction l as [|im' l IH]; simpl; [reflexivity|].
  destruct (Qleb (Column.y_center im) (Column.y_center im')) eqn:E;
    [reflexivity|].
  apply Qleb_gt in E. simpl. rewrite IH. simpl.
  destruct (Qeq_bool (Column.y_center im) q) eqn:E1;
    destruct (Qeq_bool (Column.y_center im') q) eqn:E2; try reflexivity.
  apply Qeq_bool_iff in E1, E2. exfalso. lra.
Qed.

(** X3. The images of a page are processed in ascending order of their
    vertical center: the processing order is a permutation of the
    candidates, sorted by vertical center, and stable, i.e. images at the
    same height keep the order of their blocks. *)
Theorem images_processed_top_to_bottom (l : list Column.Labelled) :
  Permutation (Column.sorted_by_y l) l /\
  StronglySorted y_le (Column.sorted_by_y l) /\
  forall q, at_height q (Column.sorted_by_y l) = at_height q l.
Proof.
  split; [apply sorted_by_y_perm|]. split.
  - induction l as [|im l IH]; simpl; [constructor|].
    apply insert_by_y_sorted, IH.
  - intro q. induction l as [|im l IH]; simpl; [reflexivity|].
    rewrite at_height_insert. unfold at_height in *. simpl. rewrite IH.
    reflexivity.
Qed.

(** ** Exceptions that stop a run

    Of the calls of the scripts, the embedding lets [KMeans.fit_predict]
    and [doc.extract_image] raise; what follows is about these two. *)

Lemma for_each_fails_iff {A S : Type} (body : S -> A -> Result S)
    (F : A -> Prop) :
  (forall s a, (exists e, body s a = Raise e) <-> F a) ->
  forall l s, (exists e, for_each body l s = Raise e) <->
              exists a, In a l /\ F a.
Proof.
  intros Hbody. induction l as [|a l IH]; intro s; simpl.
  - split; [intros [e H]; discriminate|intros (a & [] & _)].
  - destruct (body s a) as [s1|e1] eqn:E; simpl.
    + rewrite IH. split.
      * intros (a' & Hin & Hf). exists a'. auto.
      * intros (a' & [<- | Hin] & Hf); [|exists a'; auto].
        apply (proj2 (Hbody s a)) in Hf as [e He]. congruence.
    + split; [|intros _; exists e1; reflexivity].
      intros _. exists a. split; [left; reflexivity|].
      apply (Hbody s). exists e1. exact E.
Qed.

Lemma save_match_fails folder doc page_num xref closest st :
  (exists e, save_match folder doc page_num xref closest st = Raise e) <->
  is_some closest = true /\ doc_extract_image doc xref = None.
Proof.
  unfold save_match. destruct closest as [ent|]; simpl.
  - destruct (doc_extract_image doc xref) as [[b x]|]; split.
    + intros [e H]. discriminate.
    + intros [_ H]. discriminate.
    + intros _. auto.
    + intros _. exists ExtractError. reflexivity.
  - split; [intros [e H]; discriminate|intros [H _]; discriminate].
Qed.

(** An image with an eligible entry whose extraction raises. *)
Definition band_image_fails (doc : Doc) (entries : list Entry)
    (im : ImageInfo) : Prop :=
  band_has_match entries im = true /\
  doc_extract_image doc (ii_xref im) = None.

Definition band_page_fails (doc : Doc) (page : Page) : Prop :=
  exists im, In im (Band.image_info page) /\
             band_image_fails doc (Band.id_entries (pg_blocks page)) im.

Lemma band_image_step_fails doc page_num entries st im :
  (exists e, Band.image_step doc page_num entries st im = Raise e) <->
  band_image_fails doc entries im.
Proof.
  unfold Band.image_step, Band.closest_id, band_image_fails.
  rewrite save_match_fails, band_closest_nearest, is_some_nearest.
  reflexivity.
Qed.

Lemma band_page_step_fails doc st p :
  (exists e, Band.page_step doc st p = Raise e) <-> band_page_fails doc (snd p).
Proof.
  destruct p as [page_num page]. unfold Band.page_step, band_page_fails.
  cbn [fst snd].
  destruct (Band.image_info page) as [|im0 infos] eqn:Ei.
  { split; [intros [e H]; discriminate|intros (im & [] & _)]. }
  destruct (Band.id_entries (pg_blocks page)) as [|e0 entries] eqn:Ee.
  { split; [intros [e H]; discriminate|].
    intros (im & _ & H & _). discriminate. }
  apply (for_each_fails_iff
           (Band.image_step doc page_num (e0 :: entries))
           (band_image_fails doc (e0 :: entries))
           (fun s a => band_image_step_fails doc page_num (e0 :: entries) s a)
           (im0 :: infos) st).
Qed.

Lemma band_run_fails_if doc :
  (exists page, In page (doc_pages doc) /\ band_page_fails doc page) ->
  exists e, Band.main None doc = Raise e.
Proof.
  intros (page & Hin & Hf). rewrite band_main_fresh.
  apply (for_each_fails_iff (Band.page_step doc)
           (fun p => band_page_fails doc (snd p))
           (band_page_step_fails doc)).
  apply In_nth_error in Hin as [n Hn].
  exists (n, page). split; [|exact Hf].
  apply enumerate_from_In_iff. split; [lia|].
  rewrite Nat.sub_0_r. exact Hn.
Qed.

(** X4. An image that has an eligible identifier and cannot be
    extracted stops a fresh run of the band script: the exception of
    [doc.extract_image] is not caught and the image is not skipped, so
    the run does not complete; a run that completes has therefore
    extracted every image that has an eligible identifier. (Nothing is
    said here of what else can stop a run.) *)
Theorem band_unextractable_image_stops_run (doc : Doc) :
  ((exists page, In page (doc_pages doc) /\ band_page_fails doc page) ->
   exists e, Band.main None doc = Raise e) /\
  (forall st, Band.main None doc = Ok st ->
     forall page im,
       In page (doc_pages doc) -> In im (Band.image_info page) ->
       band_has_match (Band.id_entries (pg_blocks page)) im = true ->
       exists image_bytes ext,
         doc_extract_image doc (ii_xref im) = Some (image_bytes, ext)).
Proof.
  split; [apply band_run_fails_if|].
  intros st Hok page im Hp Hi Hm.
  destruct (doc_extract_image doc (ii_xref im)) as [[image_bytes ext]|] eqn:X;
    [eauto|].
  exfalso.
  destruct (band_run_fails_if doc) as [e He]; [|congruence].
  exists page. split; [exact Hp|]. exists im. split; [exact Hi|].
  split; [exact Hm|exact X].
Qed.

(** The fit of the page raises, or an image with an eligible entry
    under the fitted model cannot be extracted. *)
Definition column_page_fails (kmeans : Column.KMeans) (doc : Doc)
    (page : Page) : Prop :=
  reaches_clustering page /\
  match kmeans Column.n_clusters
          (Column.image_coords (Column.image_info page)) with
  | None => True
  | Some fitted =>
      exists im,
        In im (Column.attach_labels (Column.labels fitted)
                 (Column.image_info page)) /\
        column_has_match (Column.predict fitted)
          (Column.id_entries (pg_blocks page)) im = true /\
        doc_extract_image doc (ii_xref (Column.li_img im)) = None
  end.

Lemma column_image_step_fails doc page_num predict entries st im :
  (exists e, Column.image_step doc page_num predict entries st im = Raise e)
  <-> column_has_match predict entries im = true /\
      doc_extract_image doc (ii_xref (Column.li_img im)) = None.
Proof.
  unfold Column.image_step.
  rewrite save_match_fails, column_closest_nearest, is_some_nearest.
  reflexivity.
Qed.

Lemma reaches_clustering_dec page :
  reaches_clustering page \/
  (forall kmeans doc st page_num,
     Column.page_step kmeans doc st (page_num, page) = Ok st).
Proof.
  unfold reaches_clustering, Column.page_step.
  destruct (Column.id_entries (pg_blocks page)) as [|e0 entries] eqn:Ee.
  { right. intros. cbn [fst snd]. rewrite Ee. reflexivity. }
  destruct (Column.image_info page) as [|im0 infos] eqn:Ei.
  { right. intros. cbn [fst snd]. rewrite Ee, Ei.
    destruct (pg_images page); reflexivity. }
  left. split; discriminate.
Qed.

Lemma column_page_step_fails kmeans doc st p :
  (exists e, Column.page_step kmeans doc st p = Raise e) <->
  column_page_fails kmeans doc (snd p).
Proof.
  destruct p as [page_num page]. unfold column_page_fails. cbn [snd].
  destruct (reaches_clustering_dec page) as [R|Hskip].
  - rewrite (column_page_step_reached _ _ _ _ _ R).
    destruct (kmeans _ _) as [fitted|].
    + rewrite (for_each_fails_iff _ _
                 (column_image_step_fails doc page_num (Column.predict fitted)
                    (Column.id_entries (pg_blocks page)))).
      split.
      * intros (im & Hin & Hf). split; [exact R|]. exists im.
        split; [|exact Hf].
        apply (Permutation_in _ (sorted_by_y_perm _) Hin).
      * intros (_ & im & Hin & Hf). exists im. split; [|exact Hf].
        apply (Permutation_in _ (Permutation_sym (sorted_by_y_perm _)) Hin).
    + split; [intros _; split; [exact R|exact I]|].
      intros _. exists ValueError. reflexivity.
  - rewrite Hskip. split; [intros [e H]; discriminate|].
    intros [R _]. exfalso.
    destruct R as [He Hi].
    specialize (Hskip (fun _ _ => None) doc st page_num).
    rewrite (column_page_step_reached _ _ _ _ _ (conj He Hi)) in Hskip.
    discriminate.
Qed.

Lemma column_run_fails_if kmeans doc :
  (exists page, In page (doc_pages doc) /\ column_page_fails kmeans doc page) ->
  exists e, Column.run kmeans doc = Raise e.
Proof.
  intros (page & Hin & Hf). unfold Column.run.
  apply (for_each_fails_iff (Column.page_step kmeans doc)
           (fun p => column_page_fails kmeans doc (snd p))
           (column_page_step_fails kmeans doc)).
  apply In_nth_error in Hin as [n Hn].
  exists (n, page). split; [|exact Hf].
  apply enumerate_from_In_iff. split; [lia|].
  rewrite Nat.sub_0_r. exact Hn.
Qed.

(** X5. In the clustering script a fit that raises, on a page that has
    identifier entries and resolved image candidates, stops the run, and
    so does an image with an eligible identifier that cannot be
    extracted: neither exception is caught, nothing is skipped. A run
    that completes has therefore fitted every such page and extracted
    every image with an eligible identifier. A page without identifier
    entries or without resolved image candidates is passed over with the
    state unchanged, whatever the clusterer and the extraction would do.
    (Nothing is said here of what else can stop a run.) *)
Theorem column_failure_stops_run (kmeans : Column.KMeans) (doc : Doc) :
  ((exists page, In page (doc_pages doc) /\ column_page_fails kmeans doc page) ->
   exists e, Column.run kmeans doc = Raise e) /\
  (forall st, Column.run kmeans doc = Ok st ->
     forall page,
       In page (doc_pages doc) -> reaches_clustering page ->
       exists fitted,
         kmeans Column.n_clusters
           (Column.image_coords (Column.image_info page)) = Some fitted /\
         forall im,
           In im (Column.attach_labels (Column.labels fitted)
                    (Column.image_info page)) ->
           column_has_match (Column.predict fitted)
             (Column.id_entries (pg_blocks page)) im = true ->
           exists image_bytes ext,
             doc_extract_image doc (ii_xref (Column.li_img im))
             = Some (image_bytes, ext)) /\
  (forall page,
     ~ reaches_clustering page ->
     forall st page_num,
       Column.page_step kmeans doc st (page_num, page) = Ok st).
Proof.
  split; [apply column_run_fails_if|]. split.
  - intros st Hok page Hp R.
    assert (Hno : ~ column_page_fails kmeans doc page).
    { intro Hf. destruct (column_run_fails_if kmeans doc) as [e He];
        [|congruence].
      exists page. auto. }
    unfold column_page_fails in Hno.
    destruct (kmeans Column.n_clusters
                (Column.image_coords (Column.image_info page)))
      as [fitted|]; [|exfalso; apply Hno; auto].
    exists fitted. split; [reflexivity|].
    intros im Hi Hm.
    destruct (doc_extract_image doc (ii_xref (Column.li_img im)))
      as [[image_bytes ext]|] eqn:X; [eauto|].
    exfalso. apply Hno. split; [exact R|]. exists im. auto.
  - intros page Hnot st page_num.
    destruct (reaches_clustering_dec page) as [R|Hskip]; [contradiction|].
    apply Hskip.
Qed.

(** ** What the records of a run say *)

Section RecordInvariant.

Variable folder : string.
Variable doc : Doc.
Variable entries_of : Page -> list Entry.

(** The record names the page it was made on and repeats the identifier
    and text of one of the identifier entries of that page. *)
Definition record_sound (r : MatchRecord) : Prop :=
  exists page ent,
    nth_error (doc_pages doc) (rec_page r) = Some page /\
    In ent (entries_of page) /\
    rec_unique_number r = ent_id ent /\
    rec_text r = ent_text ent.

(** The file written with the record: named after the record's key,
    stored under the recorded name, holding what [extract_image] gave. *)
Definition file_of_record (kv : PyKey * MatchRecord) (f : string * string)
    : Prop :=
  exists z ext xref,
    fst kv = KInt z /\
    rec_image (snd kv) = ("img_" ++ str_of_Z z ++ "." ++ ext)%string /\
    fst f = path_join folder (rec_image (snd kv)) /\
    doc_extract_image doc xref = Some (snd f, ext).

Definition pages_of (st : State) : list nat :=
  map (fun kv => rec_page (snd kv)) (st_data st).

Definition run_inv (bound : nat) (st : State) : Prop :=
  contiguous st /\
  Forall2 file_of_record (st_data st) (st_files st) /\
  Forall (fun kv => record_sound (snd kv)) (st_data st) /\
  StronglySorted le (pages_of st) /\
  Forall (fun n => (n <= bound)%nat) (pages_of st).

Lemma run_inv_initial : run_inv 0 initial_state.
Proof.
  repeat split; try constructor; reflexivity.
Qed.

Lemma run_inv_mono n m st : (n <= m)%nat -> run_inv n st -> run_inv m st.
Proof.
  intros Hle (C & F & R & S & B). repeat split; try apply C; auto.
  eapply Forall_impl; [|exact B]. intros a Ha. simpl in Ha. lia.
Qed.

Lemma StronglySorted_snoc l n :
  StronglySorted le l -> Forall (fun a => (a <= n)%nat) l ->
  StronglySorted le (l ++ [n]).
Proof.
  induction 1 as [|a l Hs IH Ha]; intro Hb; simpl.
  - constructor; constructor.
  - inversion Hb as [|? ? Han Hbl]; subst.
    constructor; [apply IH, Hbl|].
    apply Forall_app. split; [exact Ha|]. constructor; [exact Han|constructor].
Qed.

Lemma save_match_inv page_num page xref closest st st' :
  nth_error (doc_pages doc) page_num = Some page ->
  (forall ent, closest = Some ent -> In ent (entries_of page)) ->
  run_inv page_num st ->
  save_match folder doc page_num xref closest st = Ok st' ->
  run_inv page_num st'.
Proof.
  intros Hpage Hin (C & F & R & S & B) H.
  pose proof (save_match_grows _ _ _ _ _ _ _ H C) as [C' _].
  unfold save_match in H. destruct closest as [ent|].
  2:{ injection H as <-. unfold run_inv. auto. }
  destruct (doc_extract_image doc xref) as [[image_bytes ext]|] eqn:X;
    [|discriminate].
  injection H as <-. split; [exact C'|].
  destruct C as [Hk Hi]. unfold run_inv, pages_of. cbn [st_data st_files].
  rewrite dict_set_fresh.
  2:{ rewrite Hi, Hk. apply int_keys_fresh. }
  rewrite map_app. cbn [map snd rec_page].
  split; [|split; [|split]].
  - apply Forall2_app; [exact F|]. constructor; [|constructor].
    exists (st_index st), ext, xref. cbn [fst snd rec_image]. auto.
  - apply Forall_app. split; [exact R|]. constructor; [|constructor].
    exists page, ent. cbn [snd rec_page rec_unique_number rec_text].
    repeat split; auto.
  - apply StronglySorted_snoc; assumption.
  - apply Forall_app. split; [exact B|]. constructor; [lia|constructor].
Qed.

Lemma for_each_inv {A : Type} (body : State -> A -> Result State)
    (I : State -> Prop) l :
  (forall s a s', In a l -> I s -> body s a = Ok s' -> I s') ->
  forall s s', I s -> for_each body l s = Ok s' -> I s'.
Proof.
  induction l as [|a l IH]; intros Hbody s s' Hs; simpl.
  - intros [= <-]. exact Hs.
  - destruct (body s a) as [s1|e] eqn:E; simpl; [|discriminate].
    apply IH.
    + intros s0 a0 s0' Hin. apply Hbody. right. exact Hin.
    + apply (Hbody s a s1); auto. left. reflexivity.
Qed.

(** A page body that keeps the invariant of its own page number keeps
    it along the numbered pages. *)
Lemma pages_inv_from (page_step : State -> nat * Page -> Result State) :
  (forall n page st st',
     nth_error (doc_pages doc) n = Some page ->
     run_inv n st -> page_step st (n, page) = Ok st' -> run_inv n st') ->
  forall l k st st',
    (forall i p, nth_error l i = Some p ->
                 nth_error (doc_pages doc) (k + i) = Some p) ->
    run_inv k st ->
    for_each page_step (enumerate_from k l) st = Ok st' ->
    run_inv (k + List.length l) st'.
Proof.
  intros Hstep. induction l as [|a l IH]; intros k st st' Hnth Hs; simpl.
  - intros [= <-]. rewrite Nat.add_0_r. exact Hs.
  - destruct (page_step st (k, a)) as [s1|e] eqn:E; simpl; [|discriminate].
    intro H. replace (k + S (List.length l))%nat
      with (S k + List.length l)%nat by lia.
    apply (IH (S k) s1 st'); [| |exact H].
    + intros i p Hi. specialize (Hnth (S i) p Hi).
      replace (S k + i)%nat with (k + S i)%nat by lia. exact Hnth.
    + apply (run_inv_mono k); [lia|].
      apply (Hstep k a st s1); [|exact Hs|exact E].
      specialize (Hnth 0%nat a eq_refl). rewrite Nat.add_0_r in Hnth.
      exact Hnth.
Qed.

Lemma pages_inv (page_step : State -> nat * Page -> Result State) :
  (forall n page st st',
     nth_error (doc_pages doc) n = Some page ->
     run_inv n st -> page_step st (n, page) = Ok st' -> run_inv n st') ->
  forall st,
    for_each page_step (enumerate_from 0 (doc_pages doc)) initial_state = Ok st ->
    run_inv (List.length (doc_pages doc)) st.
Proof.
  intros Hstep st H.
  apply (pages_inv_from page_step Hstep (doc_pages doc) 0 initial_state st);
    [|apply run_inv_initial|exact H].
  intros i p Hi. exact Hi.
Qed.

End RecordInvariant.

Definition band_entries_of (page : Page) : list Entry :=
  Band.id_entries (pg_blocks page).

Definition column_entries_of (page : Page) : list Entry :=
  Column.id_entries (pg_blocks page).

Lemma band_closest_in img_bbox entries ent :
  Band.closest_id img_bbox entries = Some ent -> In ent entries.
Proof.
  unfold Band.closest_id. rewrite band_closest_nearest. intro H.
  apply nearest_Some, first_nearest_min in H. apply H.
Qed.

Lemma column_closest_in predict c y entries ent :
  Column.closest_id predict c y entries = Some ent -> In ent entries.
Proof.
  rewrite column_closest_nearest. intro H.
  apply nearest_Some, first_nearest_min in H. apply H.
Qed.

Lemma band_page_step_inv doc n page st st' :
  nth_error (doc_pages doc) n = Some page ->
  run_inv Band.images_folder doc band_entries_of n st ->
  Band.page_step doc st (n, page) = Ok st' ->
  run_inv Band.images_folder doc band_entries_of n st'.
Proof.
  intros Hn Hs. unfold Band.page_step. cbn [fst snd].
  destruct (Band.image_info page) as [|im0 infos]; [congruence|].
  destruct (Band.id_entries (pg_blocks page)) as [|e0 entries] eqn:Ee;
    [congruence|].
  change (for_each (Band.image_step doc n (e0 :: entries)) (im0 :: infos) st
          = Ok st' -> run_inv Band.images_folder doc band_entries_of n st').
  apply for_each_inv; [|exact Hs].
  intros s im s' _ Hi. unfold Band.image_step.
  apply (save_match_inv _ _ _ _ page); [exact Hn| |exact Hi].
  intros ent Hc. unfold band_entries_of. rewrite Ee.
  apply (band_closest_in _ _ _ Hc).
Qed.

Lemma column_page_step_inv kmeans doc n page st st' :
  nth_error (doc_pages doc) n = Some page ->
  run_inv Column.images_folder doc column_entries_of n st ->
  Column.page_step kmeans doc st (n, page) = Ok st' ->
  run_inv Column.images_folder doc column_entries_of n st'.
Proof.
  intros Hn Hs.
  destruct (reaches_clustering_dec page) as [R|Hskip].
  - rewrite (column_page_step_reached _ _ _ _ _ R).
    destruct (kmeans _ _) as [fitted|]; [|discriminate].
    apply for_each_inv; [|exact Hs].
    intros s im s' _ Hi. unfold Column.image_step.
    apply (save_match_inv _ _ _ _ page); [exact Hn| |exact Hi].
    intros ent Hc. apply (column_closest_in _ _ _ _ _ Hc).
  - rewrite Hskip. congruence.
Qed.

Lemma band_run_inv doc st :
  Band.main None doc = Ok st ->
  run_inv Band.images_folder doc band_entries_of
    (List.length (doc_pages doc)) st.
Proof.
  rewrite band_main_fresh. apply pages_inv.
  intros n page s s'. apply band_page_step_inv.
Qed.

Lemma column_run_inv kmeans doc st :
  Column.run kmeans doc = Ok st ->
  run_inv Column.images_folder doc column_entries_of
    (List.length (doc_pages doc)) st.
Proof.
  unfold Column.run. apply pages_inv.
  intros n page s s'. apply column_page_step_inv.
Qed.

(** X6. Every record of a completed run is backed by the document: its
    page number is that of a page of the document, and its identifier
    and text are those of one of the identifier entries extracted from
    that very page (by the script's own extraction). *)
Theorem records_come_from_their_page :
  (forall kmeans doc st k r,
     Column.run kmeans doc = Ok st -> In (k, r) (st_data st) ->
     exists page ent,
       nth_error (doc_pages doc) (rec_page r) = Some page /\
       In ent (Column.id_entries (pg_blocks page)) /\
       rec_unique_number r = ent_id ent /\ rec_text r = ent_text ent) /\
  (forall doc st k r,
     Band.main None doc = Ok st -> In (k, r) (st_data st) ->
     exists page ent,
       nth_error (doc_pages doc) (rec_page r) = Some page /\
       In ent (Band.id_entries (pg_blocks page)) /\
       rec_unique_number r = ent_id ent /\ rec_text r = ent_text ent).
Proof.
  split.
  - intros kmeans doc st k r H Hin.
    apply column_run_inv in H as (_ & _ & R & _).
    rewrite Forall_forall in R. apply (R _ Hin).
  - intros doc st k r H Hin.
    apply band_run_inv in H as (_ & _ & R & _).
    rewrite Forall_forall in R. apply (R _ Hin).
Qed.

Lemma records_come_from_their_page_sample :
  exists st r page ent,
    Band.main None sample_doc = Ok st /\
    In (KInt 2, r) (st_data st) /\
    nth_error (doc_pages sample_doc) (rec_page r) = Some page /\
    In ent (Band.id_entries (pg_blocks page)) /\
    rec_unique_number r = ent_id ent.
Proof.
  destruct (Band.main None sample_doc) as [st|e] eqn:E;
    [|vm_compute in E; discriminate].
  assert (Hin : exists r, In (KInt 2, r) (st_data st)).
  { vm_compute in E. injection E as <-. eexists. right. right. left.
    reflexivity. }
  destruct Hin as [r Hin].
  destruct (proj2 records_come_from_their_page sample_doc st (KInt 2) r E Hin)
    as (page & ent & Hp & He & Hu & _).
  exists st, r, page, ent. auto.
Defined.

(** X7. The records of a completed run are listed by page: page numbers
    never decrease along the Mapping and all lie below the number of
    pages of the document. *)
Theorem records_ordered_by_page :
  (forall kmeans doc st,
     Column.run kmeans doc = Ok st ->
     StronglySorted le (map (fun kv => rec_page (snd kv)) (st_data st)) /\
     Forall (fun kv => (rec_page (snd kv) < List.length (doc_pages doc))%nat)
            (st_data st)) /\
  (forall doc st,
     Band.main None doc = Ok st ->
     StronglySorted le (map (fun kv => rec_page (snd kv)) (st_data st)) /\
     Forall (fun kv => (rec_page (snd kv) < List.length (doc_pages doc))%nat)
            (st_data st)).
Proof.
  assert (G : forall folder doc entries_of st,
    run_inv folder doc entries_of (List.length (doc_pages doc)) st ->
    StronglySorted le (map (fun kv => rec_page (snd kv)) (st_data st)) /\
    Forall (fun kv => (rec_page (snd kv) < List.length (doc_pages doc))%nat)
           (st_data st)).
  { intros folder doc entries_of st (_ & _ & R & S & _). split; [exact S|].
    eapply Forall_impl; [|exact R].
    intros kv (page & ent & Hp & _).
    apply nth_error_Some. congruence. }
  split.
  - intros kmeans doc st H. apply column_run_inv in H. apply (G _ _ _ _ H).
  - intros doc st H. apply band_run_inv in H. apply (G _ _ _ _ H).
Qed.

(** ** Image files *)

Fixpoint no_dot (s : string) : bool :=
  match s with
  | EmptyString => true
  | String c s' => negb (Ascii.eqb c ".") && no_dot s'
  end.

Lemma string_of_uint_no_dot d : no_dot (NilEmpty.string_of_uint d) = true.
Proof. induction d; simpl; auto. Qed.

Lemma str_of_Z_no_dot z : no_dot (str_of_Z z) = true.
Proof.
  unfold str_of_Z, NilZero.string_of_int, NilZero.string_of_uint.
  destruct (Z.to_int z) as [d|d]; destruct d; simpl;
    auto using string_of_uint_no_dot.
Qed.

Lemma str_of_Z_inj a b : str_of_Z a = str_of_Z b -> a = b.
Proof.
  unfold str_of_Z. intro H.
  assert (N : forall z, Z.to_int z <> Decimal.Pos Decimal.Nil /\
                        Z.to_int z <> Decimal.Neg Decimal.Nil).
  { intro z. pose proof (DecimalZ.to_of (Z.to_int z)) as E.
    rewrite DecimalZ.of_to in E.
    split; intro X; rewrite X in E; discriminate. }
  pose proof (NilZero.isi _ (proj1 (N a)) (proj2 (N a))) as Ia.
  pose proof (NilZero.isi _ (proj1 (N b)) (proj2 (N b))) as Ib.
  rewrite H in Ia. rewrite Ia in Ib. injection Ib as E.
  rewrite <- (DecimalZ.of_to a), <- (DecimalZ.of_to b), E. reflexivity.
Qed.

Lemma append_inj_l (p a b : string) :
  (p ++ a)%string = (p ++ b)%string -> a = b.
Proof.
  induction p as [|c p IH]; simpl; [auto|]. intros [= H]. auto.
Qed.

Lemma split_at_dot (s1 s2 t1 t2 : string) :
  no_dot s1 = true -> no_dot s2 = true ->
  (s1 ++ String "." t1)%string = (s2 ++ String "." t2)%string -> s1 = s2.
Proof.
  revert s2. induction s1 as [|c s1 IH]; intros [|c2 s2]; simpl;
    intros H1 H2 E.
  - reflexivity.
  - injection E as <- _. rewrite Ascii.eqb_refl in H2. discriminate.
  - injection E as -> _. rewrite Ascii.eqb_refl in H1. discriminate.
  - injection E as -> E.
    apply andb_true_iff in H1 as [_ H1]. apply andb_true_iff in H2 as [_ H2].
    f_equal. apply (IH s2 H1 H2 E).
Qed.

(** The index can be read back from the file name. *)
Lemma image_name_inj z1 ext1 z2 ext2 :
  ("img_" ++ str_of_Z z1 ++ "." ++ ext1)%string
  = ("img_" ++ str_of_Z z2 ++ "." ++ ext2)%string -> z1 = z2.
Proof.
  intro H. apply append_inj_l in H.
  apply str_of_Z_inj.
  apply (split_at_dot _ _ ext1 ext2); auto using str_of_Z_no_dot.
Qed.

Lemma int_keys_NoDup n : NoDup (int_keys n).
Proof.
  unfold int_keys. apply Injective_map_NoDup; [|apply seq_NoDup].
  intros a b [= H]. lia.
Qed.

Lemma files_distinct folder doc data files :
  Forall2 (file_of_record folder doc) data files ->
  NoDup (keys data) -> NoDup (map fst files).
Proof.
  induction 1 as [|kv f data files Hf Hrest IH]; simpl; intro Hk.
  - constructor.
  - inversion Hk as [|? ? Hnotin Hnd]; subst. constructor; [|apply IH, Hnd].
    intro Hin. apply Hnotin. clear IH Hnd Hnotin Hk.
    destruct Hf as (z & ext & xref & Hkz & Hname & Hpath & _).
    induction Hrest as [|kv' f' data files Hf' Hrest IH]; simpl in *;
      [contradiction|].
    destruct Hin as [E|Hin]; [left|right; apply IH, Hin].
    destruct Hf' as (z' & ext' & xref' & Hkz' & Hname' & Hpath' & _).
    rewrite Hpath, Hpath' in E. unfold path_join in E.
    apply append_inj_l in E. simpl in E. injection E as E.
    rewrite Hname, Hname' in E. apply image_name_inj in E.
    rewrite Hkz, Hkz', E. reflexivity.
Qed.

(** X8. In a completed run every record has its image file, and one
    only: the files written are, in order, those of the records, each
    stored in the images folder under the recorded name
    [img_<key>.<ext>] and holding what [extract_image] returned; the key
    can be read back from the name, so no two records share a file and
    no file is written twice. *)
Theorem one_file_per_record :
  (forall kmeans doc st,
     Column.run kmeans doc = Ok st ->
     Forall2 (file_of_record Column.images_folder doc)
       (st_data st) (st_files st) /\
     NoDup (map fst (st_files st))) /\
  (forall doc st,
     Band.main None doc = Ok st ->
     Forall2 (file_of_record Band.images_folder doc)
       (st_data st) (st_files st) /\
     NoDup (map fst (st_files st))) /\
  (forall z1 ext1 z2 ext2,
     ("img_" ++ str_of_Z z1 ++ "." ++ ext1)%string
     = ("img_" ++ str_of_Z z2 ++ "." ++ ext2)%string -> z1 = z2).
Proof.
  assert (G : forall folder doc entries_of n st,
    run_inv folder doc entries_of n st ->
    Forall2 (file_of_record folder doc) (st_data st) (st_files st) /\
    NoDup (map fst (st_files st))).
  { intros folder doc entries_of n st ([Hk _] & F & _). split; [exact F|].
    apply (files_distinct _ _ _ _ F). rewrite Hk. apply int_keys_NoDup. }
  split; [|split].
  - intros kmeans doc st H. apply column_run_inv in H. apply (G _ _ _ _ _ H).
  - intros doc st H. apply band_run_inv in H. apply (G _ _ _ _ _ H).
  - apply image_name_inj.
Qed.

(** ** [strip] and the text of a block *)

Fixpoint last_char (s : string) : option ascii :=
  match s with
  | EmptyString => None
  | String c EmptyString => Some c
  | String _ s' => last_char s'
  end.

Definition first_char (s : string) : option ascii :=
  match s with
  | EmptyString => None
  | String c _ => Some c
  end.

(** The string neither starts nor ends with a whitespace character. *)
Definition trimmed (s : string) : Prop :=
  (forall c, first_char s = Some c -> is_space c = false) /\
  (forall c, last_char s = Some c -> is_space c = false).

Lemma lstrip_first s c : first_char (lstrip s) = Some c -> is_space c = false.
Proof.
  induction s as [|a s IH]; simpl; [discriminate|].
  destruct (is_space a) eqn:E; [exact IH|]. simpl. intros [= <-]. exact E.
Qed.

Lemma rstrip_last s c : last_char (rstrip s) = Some c -> is_space c = false.
Proof.
  revert c. induction s as [|a s IH]; intro c; simpl; [discriminate|].
  destruct (rstrip s) as [|b r] eqn:R.
  - destruct (is_space a) eqn:E; simpl; [discriminate|].
    intros [= <-]. exact E.
  - intro H. apply IH. exact H.
Qed.

Lemma rstrip_first s c :
  first_char s = Some c -> is_space c = false ->
  first_char (rstrip s) = Some c.
Proof.
  destruct s as [|a s]; simpl; [discriminate|]. intros [= <-] E.
  destruct (rstrip s); [rewrite E|]; reflexivity.
Qed.

Lemma lstrip_fixed s :
  (forall c, first_char s = Some c -> is_space c = false) -> lstrip s = s.
Proof.
  destruct s as [|a s]; simpl; [reflexivity|]. intro H.
  rewrite (H a eq_refl). reflexivity.
Qed.

Lemma rstrip_fixed s :
  (forall c, last_char s = Some c -> is_space c = false) -> rstrip s = s.
Proof.
  induction s as [|a s IH]; simpl; [reflexivity|]. intro H.
  destruct s as [|b s].
  - simpl. rewrite (H a eq_refl). reflexivity.
  - rewrite IH by exact H. reflexivity.
Qed.

Lemma strip_trimmed s : trimmed (strip s).
Proof.
  unfold strip. split; [|apply rstrip_last].
  intros c H. destruct (lstrip s) as [|a t] eqn:L; [discriminate|].
  assert (Ha : is_space a = false).
  { apply (lstrip_first s). rewrite L. reflexivity. }
  rewrite (rstrip_first (String a t) a eq_refl Ha) in H.
  injection H as <-. exact Ha.
Qed.

Lemma strip_fixed s : trimmed s -> strip s = s.
Proof.
  intros [Hf Hl]. unfold strip. rewrite (lstrip_fixed s Hf).
  apply rstrip_fixed, Hl.
Qed.

Lemma rstrip_app_space s : rstrip (s ++ " ") = rstrip s.
Proof.
  induction s as [|a s IH]; simpl; [reflexivity|]. rewrite IH. reflexivity.
Qed.

Lemma lstrip_app_space s :
  lstrip (s ++ " ") = match lstrip s with
                      | EmptyString => EmptyString
                      | t => (t ++ " ")%string
                      end.
Proof.
  induction s as [|a s IH]; simpl; [reflexivity|].
  destruct (is_space a); [exact IH|reflexivity].
Qed.

Lemma strip_app_space s : strip (s ++ " ") = strip s.
Proof.
  unfold strip. rewrite lstrip_app_space.
  destruct (lstrip s) as [|a t]; [reflexivity|].
  apply (rstrip_app_space (String a t)).
Qed.

Lemma append_assoc (a b c : string) :
  ((a ++ b) ++ c)%string = (a ++ (b ++ c))%string.
Proof.
  induction a as [|x a IH]; simpl; [reflexivity|]. rewrite IH. reflexivity.
Qed.

Lemma column_block_text_fold spans acc :
  fold_left (fun acc t => (acc ++ t ++ " ")%string) spans acc
  = match spans with
    | [] => acc
    | _ => (acc ++ join_space spans ++ " ")%string
    end.
Proof.
  revert acc. induction spans as [|t spans IH]; intro acc; [reflexivity|].
  cbn [fold_left]. rewrite IH. destruct spans as [|t' spans]; [reflexivity|].
  cbn [join_space]. rewrite !append_assoc. reflexivity.
Qed.

(** [strip] returns a string that neither starts nor ends with a
    whitespace character, leaves such a string as it is (so it is
    idempotent), and ignores a space appended to its argument. *)
Lemma strip_spec (s : string) :
  trimmed (strip s) /\
  (trimmed s -> strip s = s) /\
  strip (strip s) = strip s /\
  strip (s ++ " ") = strip s.
Proof.
  split; [apply strip_trimmed|]. split; [apply strip_fixed|].
  split; [apply strip_fixed, strip_trimmed|apply strip_app_space].
Qed.

(** X9. The two scripts keep the same text for a text block: the
    stripped text of the clustering script (every span followed by a
    space) is the text of the band script (spans joined by single
    spaces, stripped); entries made from one block by either script
    carry that text and the block's bbox. *)
Theorem block_text_agrees (bbox : BBox) (lines : list (list string)) :
  strip (Column.block_text lines) = Band.block_text lines /\
  (forall e1 e2,
     In e1 (Column.entries_of_block (TextBlock bbox lines)) ->
     In e2 (Band.entries_of_block (TextBlock bbox lines)) ->
     ent_text e1 = ent_text e2 /\ ent_bbox e1 = ent_bbox e2).
Proof.
  assert (E : strip (Column.block_text lines) = Band.block_text lines).
  { unfold Column.block_text, Band.block_text.
    rewrite column_block_text_fold.
    destruct (List.concat lines) as [|t spans]; [reflexivity|].
    cbn [append]. apply strip_app_space. }
  split; [exact E|].
  intros e1 e2 H1 H2. simpl in H1, H2.
  destruct (re_search Column.id_pattern (Column.block_text lines))
    as [[|c g]|]; try contradiction.
  destruct H1 as [<- | []]. cbn [ent_text ent_bbox].
  apply in_map_iff in H2 as (m & <- & _). cbn [ent_text ent_bbox].
  split; [exact E|reflexivity].
Qed.

(** ** The identifiers found are identifiers *)

(** The language of a pattern. *)
Inductive matches : regex -> string -> Prop :=
| m_cls p c : p c = true -> matches (Cls p) (String c EmptyString)
| m_seq r1 r2 s1 s2 :
    matches r1 s1 -> matches r2 s2 -> matches (Seq r1 r2) (s1 ++ s2)
| m_opt_skip r : matches (Opt r) EmptyString
| m_opt_take r s : matches r s -> matches (Opt r) s
| m_star_stop r : matches (Star r) EmptyString
| m_star_more r s1 s2 :
    matches r s1 -> matches (Star r) s2 -> matches (Star r) (s1 ++ s2)
| m_plus r s1 s2 :
    matches r s1 -> matches (Star r) s2 -> matches (Plus r) (s1 ++ s2).

(** What a sound matcher does: it reads a word of the language and
    hands the rest to its continuation. *)
Definition reads {A : Type} (r : regex)
    (m : string -> (string -> option A) -> option A) : Prop :=
  forall s k x, m s k = Some x ->
    exists pre rest, s = (pre ++ rest)%string /\ matches r pre /\
                     k rest = Some x.

Lemma star_loop_sound {A : Type} r
    (m : string -> (string -> option A) -> option A) :
  reads r m -> forall fuel, reads (Star r) (star_loop m fuel).
Proof.
  intros Hm. induction fuel as [|fuel IH]; intros s k x; simpl.
  - intro H. exists EmptyString, s. repeat split; [constructor|exact H].
  - destruct (m s _) as [x0|] eqn:E.
    + intros [= ->]. apply Hm in E as (pre1 & rest1 & -> & M1 & K1).
      destruct (length rest1 <? length (pre1 ++ rest1))%nat; [|discriminate].
      apply IH in K1 as (pre2 & rest2 & -> & M2 & K2).
      exists (pre1 ++ pre2)%string, rest2.
      rewrite append_assoc. repeat split; [|exact K2].
      apply m_star_more; assumption.
    + intro H. exists EmptyString, s. repeat split; [constructor|exact H].
Qed.

Lemma rmatch_sound (r : regex) : forall A : Type, reads r (@rmatch A r).
Proof.
  induction r as [p|r1 IH1 r2 IH2|r1 IH1|r1 IH1|r1 IH1]; intros A s k x;
    simpl.
  - destruct s as [|c s]; [discriminate|].
    destruct (p c) eqn:P; [|discriminate].
    intro H. exists (String c EmptyString), s.
    repeat split; [constructor; exact P|exact H].
  - intro H. apply IH1 in H as (pre1 & rest1 & -> & M1 & H).
    apply IH2 in H as (pre2 & rest2 & -> & M2 & H).
    exists (pre1 ++ pre2)%string, rest2. rewrite append_assoc.
    repeat split; [constructor; assumption|exact H].
  - destruct (rmatch r1 s k) as [x0|] eqn:E.
    + intros [= ->]. apply IH1 in E as (pre & rest & -> & M & K).
      exists pre, rest. repeat split; [apply m_opt_take; exact M|exact K].
    + intro H. exists EmptyString, s. repeat split; [constructor|exact H].
  - apply (star_loop_sound r1 (rmatch r1) (IH1 A)).
  - intro H. apply IH1 in H as (pre1 & rest1 & -> & M1 & H).
    apply (star_loop_sound r1 (rmatch r1) (IH1 A)) in H
      as (pre2 & rest2 & -> & M2 & H).
    exists (pre1 ++ pre2)%string, rest2. rewrite append_assoc.
    repeat split; [apply m_plus; assumption|exact H].
Qed.

Lemma length_append (a b : string) :
  length (a ++ b) = (length a + length b)%nat.
Proof.
  induction a as [|c a IH]; simpl; [reflexivity|]. rewrite IH. reflexivity.
Qed.

Lemma stake_append (a b : string) : stake (length a) (a ++ b) = a.
Proof.
  induction a as [|c a IH]; simpl; [destruct b; reflexivity|].
  rewrite IH. reflexivity.
Qed.

Lemma stake_sdrop n s : (stake n s ++ sdrop n s)%string = s.
Proof.
  revert s. induction n as [|n IH]; intros [|c s]; simpl; try reflexivity.
  rewrite IH. reflexivity.
Qed.

Lemma match_len_sound r s n :
  match_len r s = Some n -> matches r (stake n s).
Proof.
  unfold match_len. intro H.
  apply rmatch_sound in H as (pre & rest & -> & M & [= <-]).
  rewrite length_append, Nat.add_sub, stake_append. exact M.
Qed.

(** [g] occurs in [s]. *)
Definition occurs_in (g s : string) : Prop :=
  exists before after, s = (before ++ g ++ after)%string.

Lemma slice_occurs n i s : occurs_in (stake n (sdrop i s)) s.
Proof.
  exists (stake i s), (sdrop n (sdrop i s)).
  rewrite stake_sdrop, stake_sdrop. reflexivity.
Qed.

Lemma re_search_sound r s g :
  re_search r s = Some g -> matches r g /\ occurs_in g s.
Proof.
  unfold re_search. destruct (search_from r s) as [[i n]|] eqn:E;
    [|discriminate].
  intros [= <-]. apply search_from_Some in E as (_ & Hm & _).
  split; [apply match_len_sound, Hm|apply slice_occurs].
Qed.

Lemma scan_spans r s pos spans :
  scan r s pos spans ->
  Forall (fun sp => match_len r (sdrop (fst sp) s) = Some (snd sp - fst sp)%nat)
         spans.
Proof.
  induction 1 as [|pos a n rest Ha Hm Hb Hs IH]; constructor; [|exact IH].
  simpl. rewrite Nat.add_comm, Nat.add_sub. exact Hm.
Qed.

Lemma re_findall_sound r s g :
  In g (re_findall r s) -> matches r g /\ occurs_in g s.
Proof.
  unfold re_findall. rewrite in_map_iff. intros (sp & <- & Hin).
  pose proof (scan_spans _ _ _ _ (finditer_scan r s)) as F.
  rewrite Forall_forall in F. specialize (F _ Hin).
  split; [apply match_len_sound, F|apply slice_occurs].
Qed.

Fixpoint all_chars (p : ascii -> bool) (s : string) : bool :=
  match s with
  | EmptyString => true
  | String c s' => p c && all_chars p s'
  end.

(** The last character of the string satisfies [p]. *)
Definition ends_with (p : ascii -> bool) (s : string) : Prop :=
  exists c, last_char s = Some c /\ p c = true.

Lemma matches_cls p w :
  matches (Cls p) w -> exists c, w = String c EmptyString /\ p c = true.
Proof. inversion 1; subst. eauto. Qed.

Lemma all_chars_append p a b :
  all_chars p (a ++ b) = all_chars p a && all_chars p b.
Proof.
  induction a as [|c a IH]; simpl; [reflexivity|].
  rewrite IH, andb_assoc. reflexivity.
Qed.

Lemma matches_star_cls p w : matches (Star (Cls p)) w -> all_chars p w = true.
Proof.
  remember (Star (Cls p)) as r eqn:E. intro M.
  induction M as [| | | | |r0 s1 s2 M1 _ M2 IH2|]; try discriminate.
  - reflexivity.
  - injection E as ->. apply matches_cls in M1 as (c & -> & Pc).
    simpl. rewrite Pc. apply IH2. reflexivity.
Qed.

Lemma matches_plus_cls p w :
  matches (Plus (Cls p)) w ->
  exists c w', w = String c w' /\ p c = true /\ all_chars p w' = true.
Proof.
  inversion 1 as [| | | | | |r0 s1 s2 M1 M2]; subst.
  apply matches_cls in M1 as (c & -> & Pc).
  exists c, s2. repeat split; [exact Pc|apply matches_star_cls, M2].
Qed.

Lemma last_char_None s : last_char s = None -> s = EmptyString.
Proof.
  induction s as [|c s IH]; simpl; [reflexivity|].
  destruct s as [|c' s]; [discriminate|]. intro H. specialize (IH H).
  discriminate.
Qed.

Lemma last_char_cons c s :
  last_char (String c s)
  = match last_char s with Some x => Some x | None => Some c end.
Proof.
  destruct s as [|c' s]; [reflexivity|].
  change (last_char (String c (String c' s))) with (last_char (String c' s)).
  destruct (last_char (String c' s)) eqn:E; [reflexivity|].
  apply last_char_None in E. discriminate.
Qed.

Lemma last_char_append a b :
  last_char (a ++ b)
  = match last_char b with Some c => Some c | None => last_char a end.
Proof.
  induction a as [|c a IH].
  - simpl. destruct (last_char b); reflexivity.
  - change (String c a ++ b)%string with (String c (a ++ b)).
    rewrite !last_char_cons, IH.
    destruct (last_char b); [reflexivity|].
    destruct (last_char a); reflexivity.
Qed.

Lemma ends_with_all p c w :
  p c = true -> all_chars p w = true -> ends_with p (String c w).
Proof.
  revert c. induction w as [|c' w IH]; intros c Pc Hw.
  - exists c. split; [reflexivity|exact Pc].
  - simpl in Hw. apply andb_true_iff in Hw as [Pc' Hw].
    destruct (IH c' Pc' Hw) as (x & Hl & Px). exists x. split; [|exact Px].
    exact Hl.
Qed.

Lemma ends_with_append_r p a b : ends_with p b -> ends_with p (a ++ b).
Proof.
  intros (c & Hl & Pc). exists c. rewrite last_char_append, Hl. auto.
Qed.

Lemma ends_with_append_opt p a b :
  ends_with p a -> b = EmptyString \/ ends_with p b -> ends_with p (a ++ b).
Proof.
  intros Ha [-> | Hb]; [|apply ends_with_append_r, Hb].
  destruct Ha as (c & Hl & Pc). exists c. rewrite last_char_append. simpl. auto.
Qed.

Lemma matches_plus_ends p w : matches (Plus (Cls p)) w -> ends_with p w.
Proof.
  intro M. apply matches_plus_cls in M as (c & w' & -> & Pc & Hw).
  apply ends_with_all; assumption.
Qed.

Lemma matches_opt_suffix q p w :
  matches (Opt (Seq (Cls q) (Plus (Cls p)))) w ->
  w = EmptyString \/ ends_with p w.
Proof.
  inversion 1 as [| |r0|r0 s0 M| | |]; subst; [left; reflexivity|].
  right. inversion M as [|r1 r2 s1 s2 M1 M2| | | | |]; subst.
  apply ends_with_append_r, matches_plus_ends, M2.
Qed.

Lemma matches_id_tail w :
  matches id_tail w ->
  exists rest, w = String "#" rest /\ ends_with is_digit w.
Proof.
  unfold id_tail. intro M.
  inversion M as [|r1 r2 s1 s2 M1 M2| | | | |]; subst.
  apply matches_cls in M1 as (c & -> & Pc).
  apply Ascii.eqb_eq in Pc. subst c.
  exists s2. split; [reflexivity|].
  apply (ends_with_append_r _ (String "#" EmptyString)).
  inversion M2 as [|r1 r2 ws s3 Mw M3| | | | |]; subst.
  apply ends_with_append_r.
  inversion M3 as [|r1 r2 ds s4 Md M4| | | | |]; subst.
  inversion M4 as [|r1 r2 o1 o2 Mo1 Mo2| | | | |]; subst.
  apply ends_with_append_opt; [apply matches_plus_ends, Md|].
  destruct (matches_opt_suffix _ _ _ Mo2) as [-> | H2].
  - destruct (matches_opt_suffix _ _ _ Mo1) as [-> | H1];
      [left; reflexivity|].
    right. destruct H1 as (c & Hl & Pc). exists c.
    rewrite last_char_append. simpl. auto.
  - right. apply ends_with_append_r, H2.
Qed.

Lemma digit_not_space c : is_digit c = true -> is_space c = false.
Proof.
  unfold is_digit, is_space. intro H.
  apply andb_true_iff in H as [H1 H2].
  apply Nat.leb_le in H1, H2.
  apply not_true_is_false. intro X.
  rewrite !orb_true_iff, !andb_true_iff, !Nat.leb_le, !Nat.eqb_eq in X. lia.
Qed.

Lemma upper_not_space c : is_upper c = true -> is_space c = false.
Proof.
  unfold is_upper, is_space. intro H.
  apply andb_true_iff in H as [H1 H2].
  apply Nat.leb_le in H1, H2.
  apply not_true_is_false. intro X.
  rewrite !orb_true_iff, !andb_true_iff, !Nat.leb_le, !Nat.eqb_eq in X. lia.
Qed.

Lemma ends_digit_trimmed c w :
  is_space c = false -> ends_with is_digit (String c w) ->
  trimmed (String c w).
Proof.
  intros Hc (d & Hl & Pd). split.
  - intros x [= <-]. exact Hc.
  - intros x Hx. rewrite Hl in Hx. injection Hx as <-.
    apply digit_not_space, Pd.
Qed.

Lemma matches_any_shape w :
  matches id_pattern_any w ->
  trimmed w /\ exists c rest, w = String c rest /\ is_upper c = true.
Proof.
  unfold id_pattern_any. intro M.
  inversion M as [|r1 r2 s1 s2 M1 M2| | | | |]; subst.
  apply matches_plus_cls in M1 as (c & w' & -> & Pc & _).
  apply matches_id_tail in M2 as (rest & -> & E).
  split; [|exists c, (w' ++ String "#" rest)%string; auto].
  apply (ends_digit_trimmed c (w' ++ String "#" rest)).
  - apply upper_not_space, Pc.
  - apply (ends_with_append_r _ (String c w')), E.
Qed.

Lemma matches_km_shape w :
  matches id_pattern_km w ->
  trimmed w /\ exists rest, w = ("KM#" ++ rest)%string.
Proof.
  unfold id_pattern_km. intro M.
  inversion M as [|r1 r2 s1 s2 M1 M2| | | | |]; subst.
  inversion M2 as [|r1 r2 s3 s4 M3 M4| | | | |]; subst.
  apply matches_cls in M1 as (c1 & -> & P1). apply Ascii.eqb_eq in P1.
  apply matches_cls in M3 as (c2 & -> & P2). apply Ascii.eqb_eq in P2.
  subst c1 c2.
  apply matches_id_tail in M4 as (rest & -> & E).
  split; [|exists rest; reflexivity].
  apply (ends_digit_trimmed "K" (String "M" (String "#" rest))).
  - reflexivity.
  - apply (ends_with_append_r _ "KM"), E.
Qed.

(** X10. What the scripts store as an identifier is an identifier: the
    [id] of every entry is a word of the script's pattern (read as a
    regular language), taken from the text of its block; it starts with
    an upper-case letter (with "KM#" in the band script) and carries no
    surrounding whitespace, so that the [strip] applied to it changes
    nothing. *)
Theorem entry_ids_are_identifiers (bbox : BBox) (lines : list (list string)) :
  (forall e, In e (Column.entries_of_block (TextBlock bbox lines)) ->
     matches Column.id_pattern (ent_id e) /\
     occurs_in (ent_id e) (Column.block_text lines) /\
     trimmed (ent_id e) /\
     exists c rest, ent_id e = String c rest /\ is_upper c = true) /\
  (forall e, In e (Band.entries_of_block (TextBlock bbox lines)) ->
     matches Band.id_pattern (ent_id e) /\
     occurs_in (ent_id e) (ent_text e) /\
     trimmed (ent_id e) /\
     exists rest, ent_id e = ("KM#" ++ rest)%string).
Proof.
  split.
  - intros e. cbn [Column.entries_of_block].
    destruct (re_search Column.id_pattern (Column.block_text lines))
      as [g|] eqn:E; [|intros []].
    apply re_search_sound in E as [M O].
    destruct (matches_any_shape g M) as [T S].
    destruct g as [|c g]; [intros []|].
    intros [<- | []]. cbn [ent_id].
    rewrite (strip_fixed _ T). auto.
  - intros e. cbn [Band.entries_of_block].
    rewrite in_map_iff. intros (g & <- & Hin). cbn [ent_id ent_text].
    apply re_findall_sound in Hin as [M O].
    destruct (matches_km_shape g M) as [T S].
    rewrite (strip_fixed _ T). auto.
Qed.

(** ** Writing the Mapping and reading it back *)

(** [json.dump] writes every key as a string: an integer as its decimal
    form, a string as it is. *)
Definition key_str (k : PyKey) : string :=
  match k with
  | KInt z => str_of_Z z
  | KStr s => s
  end.

(** [json.dump(data, f, ...)] (lines 180-181 and 143-144): the members
    of the JSON object, in the order of [data]. *)
Definition json_dump (data : Dict) : list (string * MatchRecord) :=
  map (fun kv => (key_str (fst kv), snd kv)) data.

(** The Mapping with every key replaced by its string. *)
Definition stringified (data : Dict) : Dict :=
  map (fun kv => (KStr (key_str (fst kv)), snd kv)) data.

Lemma json_load_fold members acc :
  NoDup (keys acc ++ map (fun m => KStr (fst m)) members) ->
  fold_left (fun d m => dict_set (KStr (fst m)) (snd m) d) members acc
  = acc ++ map (fun m => (KStr (fst m), snd m)) members.
Proof.
  revert acc. induction members as [|m l IH]; intros acc Hnd; simpl.
  - rewrite app_nil_r. reflexivity.
  - simpl in Hnd. rewrite dict_set_fresh.
    + rewrite IH.
      * rewrite <- app_assoc. reflexivity.
      * unfold keys in *. rewrite map_app, <- app_assoc. exact Hnd.
    + apply NoDup_remove_2 in Hnd. intro Hin. apply Hnd.
      apply in_or_app. left. exact Hin.
Qed.

Lemma json_load_dump data :
  NoDup (map key_str (keys data)) ->
  Band.json_load (json_dump data) = stringified data.
Proof.
  intro Hnd. unfold Band.json_load. rewrite json_load_fold.
  - unfold json_dump, stringified. rewrite map_map. reflexivity.
  - simpl. unfold json_dump, keys in *. rewrite !map_map in *. simpl.
    rewrite <- (map_map (fun kv => key_str (fst kv)) KStr).
    apply Injective_map_NoDup; [|exact Hnd].
    intros a b [= H]. exact H.
Qed.

Lemma int_keys_str_NoDup n : NoDup (map key_str (int_keys n)).
Proof.
  unfold int_keys. rewrite map_map. simpl.
  apply Injective_map_NoDup; [|apply seq_NoDup].
  intros a b H. apply str_of_Z_inj in H. lia.
Qed.

(** X11. The Mapping a completed fresh run writes is read back by
    [json.load] with the same records in the same order, each under the
    decimal string of its index instead of the index itself; a later
    run that starts from this file (any document) therefore stops with
    [TypeError] at line 128 as soon as the Mapping holds one record. *)
Theorem dumped_mapping_read_back (doc : Doc) (st : State) :
  Band.main None doc = Ok st ->
  Band.json_load (json_dump (st_data st)) = stringified (st_data st) /\
  keys (Band.json_load (json_dump (st_data st)))
  = map (fun i => KStr (str_of_Z (Z.of_nat i)))
        (seq 0 (List.length (st_data st))) /\
  (st_data st <> [] ->
   forall doc', Band.main (Some (json_dump (st_data st))) doc'
                = Raise TypeError).
Proof.
  intro H. apply band_run_inv in H as ([Hk _] & _).
  assert (E : Band.json_load (json_dump (st_data st)) = stringified (st_data st)).
  { apply json_load_dump. rewrite Hk. apply int_keys_str_NoDup. }
  split; [exact E|]. split.
  - rewrite E. unfold stringified, keys in *. rewrite map_map. simpl.
    rewrite <- (map_map fst (fun k => KStr (key_str k))), Hk.
    unfold int_keys. rewrite map_map. reflexivity.
  - intros Hne doc'. unfold Band.main.
    rewrite start_index_loaded_raises; [reflexivity|].
    unfold json_dump. destruct (st_data st); [congruence|discriminate].
Qed.

Lemma dumped_mapping_read_back_sample :
  exists st,
    Band.main None sample_doc = Ok st /\
    keys (Band.json_load (json_dump (st_data st)))
    = [KStr "0"; KStr "1"; KStr "2"]%string.
Proof.
  destruct (Band.main None sample_doc) as [st|e] eqn:E;
    [|vm_compute in E; discriminate].
  exists st. split; [reflexivity|].
  destruct (dumped_mapping_read_back sample_doc st E) as (_ & K & _).
  rewrite K.
  replace (List.length (st_data st)) with 3%nat; [reflexivity|].
  vm_compute in E. injection E as <-. reflexivity.
Defined.

(** ** [pdf_extract.py]: copying a range of pages *)

Module PdfExtract.

Definition start_page : nat := 687.
Definition end_page : nat := start_page + 1.

(** Lines 30-32: the pages added to the writer, in order;
    [reader_pages] is [reader.pages]. *)
Definition add_pages {A : Type} (reader_pages : list A)
    (start_page end_page : nat) : list A :=
  fold_left
    (fun writer page_num =>
       if (page_num <? List.length reader_pages)%nat then
         match nth_error reader_pages page_num with
         | Some page => writer ++ [page]
         | None => writer
         end
       else writer)
    (seq start_page (end_page - start_page)) [].

(** The script: the range fixed on lines 24-25. *)
Definition output {A : Type} (reader_pages : list A) : list A :=
  add_pages reader_pages start_page end_page.

End PdfExtract.

Lemma firstn_1_skipn {A : Type} n (l : list A) :
  firstn 1 (skipn n l)
  = match nth_error l n with Some a => [a] | None => [] end.
Proof.
  rewrite <- hd_error_skipn. destruct (skipn n l); reflexivity.
Qed.

Lemma add_pages_fold {A : Type} (pages : list A) a n :
  fold_left
    (fun writer page_num =>
       if (page_num <? List.length pages)%nat then
         match nth_error pages page_num with
         | Some page => writer ++ [page]
         | None => writer
         end
       else writer)
    (seq a n) []
  = firstn n (skipn a pages).
Proof.
  induction n as [|n IH]; [reflexivity|].
  rewrite seq_S, fold_left_app, IH. cbn [fold_left].
  replace (S n) with (n + 1)%nat by lia.
  rewrite firstn_add_skipn, skipn_skipn, firstn_1_skipn.
  replace (n + a)%nat with (a + n)%nat by lia.
  destruct (Nat.ltb_spec (a + n) (List.length pages)) as [Hlt|Hge].
  - destruct (nth_error pages (a + n)); [reflexivity|].
    rewrite app_nil_r. reflexivity.
  - rewrite (proj2 (nth_error_None pages (a + n)) Hge), app_nil_r.
    reflexivity.
Qed.

(** X12. The page extraction copies the slice [pages[start:end]]: the
    pages numbered from [start_page] up to, not including, [end_page],
    in order, cut off at the end of the input; it never reads past the
    end, and a range that starts past the end or is empty gives a
    document without pages; with the range of the script the output is
    the single page numbered 687, when the input has one. *)
Theorem add_pages_is_slice {A : Type} (pages : list A) (a b : nat) :
  PdfExtract.add_pages pages a b = firstn (b - a) (skipn a pages) /\
  List.length (PdfExtract.add_pages pages a b)
  = (Nat.min b (List.length pages) - a)%nat /\
  (forall i, nth_error (PdfExtract.add_pages pages a b) i
             = if (i <? b - a)%nat then nth_error pages (a + i) else None) /\
  PdfExtract.output pages
  = match nth_error pages 687 with Some page => [page] | None => [] end.
Proof.
  unfold PdfExtract.output, PdfExtract.add_pages. rewrite !add_pages_fold.
  split; [reflexivity|]. split; [|split].
  - rewrite length_firstn, length_skipn. lia.
  - intro i. rewrite nth_error_firstn, nth_error_skipn. reflexivity.
  - unfold PdfExtract.end_page, PdfExtract.start_page.
    replace (687 + 1 - 687)%nat with 1%nat by lia.
    apply firstn_1_skipn.
Qed.

(** ** [creating_image_vector.py] and [storing_data_in_azure_ai.py]

    The Mapping as these scripts read it: a JSON object whose values
    are objects. [F] stands for Python's floats; the embedding model and
    the builtin [float] are taken as given. *)

Module Vectors.

Section WithFloats.

Variable F : Type.

#[local] Unset Elimination Schemes.

Inductive JValue : Type :=
| JNull
| JBool (b : bool)
| JInt (z : Z)
| JFloat (x : F)
| JString (s : string)
| JArray (items : list JValue)
| JObject (members : list (string * JValue)).

#[local] Set Elimination Schemes.

(** A JSON object read by [json.load], i.e. a [dict] with string keys. *)
Definition JObj : Type := list (string * JValue).

(** [key in obj] and [obj[key]] / [obj.get(key)] *)
Fixpoint obj_get (key : string) (obj : JObj) : option JValue :=
  match obj with
  | [] => None
  | (k, v) :: obj' => if String.eqb k key then Some v else obj_get key obj'
  end.

(** [obj[key] = v] *)
Fixpoint obj_set (key : string) (v : JValue) (obj : JObj) : JObj :=
  match obj with
  | [] => [(key, v)]
  | (k, v') :: obj' =>
      if String.eqb k key then (k, v) :: obj'
      else (k, v') :: obj_set key v obj'
  end.

(** The value [json.dump] writes for a record (lines 168-173). *)
Definition record_json (r : MatchRecord) : JObj :=
  [ ("image", JString (rec_image r));
    ("page", JInt (Z.of_nat (rec_page r)));
    ("unique_number", JString (rec_unique_number r));
    ("text", JString (rec_text r)) ]%string.

(** The file the extraction writes, as [json.load] returns it. *)
Definition mapping_json (data : Dict) : list (string * JObj) :=
  map (fun kv => (key_str (fst kv), record_json (snd kv))) data.

(** *** creating_image_vector.py *)

Definition images_folder : string := "km_mapped_output/images".

(** [os.path.join(folder, name)] for a folder without trailing slash:
    an absolute [name] replaces the folder. *)
Definition os_path_join (folder name : string) : string :=
  match name with
  | String "/" _ => name
  | _ => path_join folder name
  end.

Inductive VecExn : Type :=
| KeyError      (* entry["image"] on an entry without that key *)
| PathError.    (* os.path.join with a name that is no string *)

Inductive Outcome (A : Type) : Type :=
| Done (a : A)
| Abort (e : VecExn).

Arguments Done {A} a.
Arguments Abort {A} e.

(** The embedding of the image at a path: [Image.open], [transform],
    [model], [tolist]; [None] when any of them raises. *)
Variable embed : string -> option (list F).

(** Body of [for idx, entry in data.items()] (lines 30-45): line 31 is
    outside the [try], the rest inside. *)
Definition add_vector (entry : JObj) : Outcome JObj :=
  match obj_get "image" entry with
  | None => Abort KeyError
  | Some (JString name) =>
      let image_path := os_path_join images_folder name in
      match embed image_path with
      | Some vector => Done (obj_set "vector" (JArray (map JFloat vector)) entry)
      | None => Done entry
      end
  | Some _ => Abort PathError
  end.

(** Lines 30-45 over the whole Mapping: the entries are updated in
    place, the first uncaught exception ends the script. *)
Fixpoint add_vectors (data : list (string * JObj))
    : Outcome (list (string * JObj)) :=
  match data with
  | [] => Done []
  | (idx, entry) :: rest =>
      match add_vector entry with
      | Abort e => Abort e
      | Done entry' =>
          match add_vectors rest with
          | Abort e => Abort e
          | Done rest' => Done ((idx, entry') :: rest')
          end
      end
  end.

(** *** storing_data_in_azure_ai.py *)

Definition index_name : string := "images-index1".
Definition api_version : string := "2023-11-01".

(** [vector_search_dimensions] of the index field (line 53) and the
    length [upload_documents] asks for (line 107). *)
Definition vector_search_dimensions : nat := 512.

(** The builtin [float]; [None] when it raises. *)
Variable py_float : JValue -> option F.

(** [[float(x) for x in items]] *)
Fixpoint floats (items : list JValue) : option (list F) :=
  match items with
  | [] => Some []
  | x :: rest =>
      match py_float x with
      | None => None
      | Some f =>
          match floats rest with
          | None => None
          | Some fs => Some (f :: fs)
          end
      end
  end.

(** [{"id", "description", "vector"}] *)
Record Document : Type := mkDocument {
  d_id : string;
  d_description : JValue;
  d_vector : list F
}.

(** Body of [for doc_id, content in raw_data.items()] (lines 105-118):
    the document appended for the entry, if any. *)
Definition document_of (doc_id : string) (content : JObj) : option Document :=
  match obj_get "vector" content with
  | Some (JArray vec) =>
      if negb (List.length vec =? 512)%nat then None
      else
        match floats vec with
        | Some fs =>
            Some {| d_id := doc_id;
                    d_description :=
                      match obj_get "text" content with
                      | Some v => v
                      | None => JString ""
                      end;
                    d_vector := fs |}
        | None => None
        end
  | _ => None
  end.

Definition documents (raw_data : list (string * JObj)) : list Document :=
  flat_map (fun kv => match document_of (fst kv) (snd kv) with
                      | Some d => [d]
                      | None => []
                      end)
           raw_data.

(** [{"@search.action": "upload", **doc}] *)
Definition action_of (d : Document) : JObj :=
  [ ("@search.action", JString "upload");
    ("id", JString (d_id d));
    ("description", d_description d);
    ("vector", JArray (map JFloat (d_vector d))) ]%string.

(** The request of line 132. *)
Record Request : Type := mkRequest {
  req_url : string;
  req_value : list JObj
}.

(** [upload_documents()] (lines 95-132) on the content of the JSON
    file: the request it posts, [None] when it returns before posting. *)
Definition upload_documents (endpoint : string)
    (raw_data : list (string * JObj)) : option Request :=
  match documents raw_data with
  | [] => None
  | docs =>
      Some {| req_url := endpoint ++ "/indexes/" ++ index_name
                         ++ "/docs/index?api-version=" ++ api_version;
              req_value := map action_of docs |}
  end.

End WithFloats.

Arguments JNull {F}.
Arguments JBool {F} b.
Arguments JInt {F} z.
Arguments JString {F} s.
Arguments JArray {F} items.
Arguments JObject {F} members.
Arguments JFloat {F} x.
Arguments Done {A} a.
Arguments Abort {A} e.

End Vectors.

Section VectorFacts.

Variable F : Type.
Variable embed : string -> option (list F).
Variable py_float : Vectors.JValue F -> option F.

Let JObj : Type := Vectors.JObj F.

Lemma obj_get_set_same key v (obj : JObj) :
  Vectors.obj_get F key (Vectors.obj_set F key v obj) = Some v.
Proof.
  induction obj as [|[k v'] obj IH]; simpl.
  - rewrite String.eqb_refl. reflexivity.
  - destruct (String.eqb k key) eqn:E; simpl; rewrite E; [reflexivity|exact IH].
Qed.

Lemma obj_get_set_other key key' v (obj : JObj) :
  key <> key' ->
  Vectors.obj_get F key (Vectors.obj_set F key' v obj)
  = Vectors.obj_get F key obj.
Proof.
  intro Hne. induction obj as [|[k v'] obj IH]; simpl.
  - destruct (String.eqb key' key) eqn:E; [|reflexivity].
    apply String.eqb_eq in E. congruence.
  - destruct (String.eqb k key') eqn:E1; simpl.
    + apply String.eqb_eq in E1. subst k.
      destruct (String.eqb key' key) eqn:E2; [|reflexivity].
      apply String.eqb_eq in E2. congruence.
    + rewrite IH. reflexivity.
Qed.

Lemma obj_set_keys key v (obj : JObj) :
  Vectors.obj_get F key obj <> None ->
  map fst (Vectors.obj_set F key v obj) = map fst obj.
Proof.
  induction obj as [|[k v'] obj IH]; simpl; [congruence|].
  destruct (String.eqb k key); simpl; [reflexivity|].
  intro H. rewrite IH by exact H. reflexivity.
Qed.

(** What the embedding loop does to one entry. *)
Definition vector_added (entry entry' : JObj) : Prop :=
  exists name,
    Vectors.obj_get F "image" entry = Some (Vectors.JString name) /\
    (forall key, key <> "vector"%string ->
       Vectors.obj_get F key entry' = Vectors.obj_get F key entry) /\
    match embed (Vectors.os_path_join Vectors.images_folder name) with
    | Some vector =>
        Vectors.obj_get F "vector" entry'
        = Some (Vectors.JArray (map Vectors.JFloat vector))
    | None => entry' = entry
    end.

(** The entry has a string under ["image"]. *)
Definition has_image_name (entry : JObj) : Prop :=
  exists name, Vectors.obj_get F "image" entry = Some (Vectors.JString name).

Lemma add_vector_done entry entry' :
  Vectors.add_vector F embed entry = Vectors.Done entry' ->
  vector_added entry entry'.
Proof.
  unfold Vectors.add_vector, vector_added.
  destruct (Vectors.obj_get F "image" entry) as [[| | | |name| |]|] eqn:E;
    try discriminate.
  destruct (embed _) as [vector|] eqn:Ev; intros [= <-]; exists name;
    (split; [reflexivity|]); rewrite Ev.
  - split; [|apply obj_get_set_same].
    intros key Hne. apply obj_get_set_other. exact Hne.
  - split; reflexivity.
Qed.

Lemma add_vector_abort entry :
  (exists e, Vectors.add_vector F embed entry = Vectors.Abort e) <->
  ~ has_image_name entry.
Proof.
  unfold Vectors.add_vector, has_image_name.
  destruct (Vectors.obj_get F "image" entry) as [[| | | |name| |]|] eqn:E;
    try (split; [intros _ [n H]; discriminate|intros _; eexists; reflexivity]).
  split.
  - intros [e H]. destruct (embed _); discriminate.
  - intro H. exfalso. apply H. exists name. reflexivity.
Qed.

(** X13. The embedding script changes nothing but the ["vector"] field:
    when it completes, the Mapping has the same keys in the same order,
    every entry keeps all its other fields, an entry whose image could
    be embedded holds the embedding under ["vector"], and an entry whose
    image could not is left exactly as it was; a failing image never
    stops the script, which aborts only on an entry without a file name
    under ["image"]. *)
Theorem add_vectors_spec (data : list (string * JObj)) :
  (forall data',
     Vectors.add_vectors F embed data = Vectors.Done data' ->
     map fst data' = map fst data /\
     Forall2 (fun kv kv' => vector_added (snd kv) (snd kv')) data data') /\
  ((exists e, Vectors.add_vectors F embed data = Vectors.Abort e) <->
   exists idx entry, In (idx, entry) data /\ ~ has_image_name entry).
Proof.
  induction data as [|[idx entry] rest [IHd IHa]]; simpl.
  - split.
    + intros data' [= <-]. split; [reflexivity|constructor].
    + split; [intros [e H]; discriminate|intros (i & en & [] & _)].
  - destruct (Vectors.add_vector F embed entry) as [entry'|e] eqn:E.
    + assert (Himg : has_image_name entry).
      { apply add_vector_done in E as (name & Hn & _). exists name. exact Hn. }
      destruct (Vectors.add_vectors F embed rest) as [rest'|e'] eqn:R.
      * split.
        -- intros data' [= <-]. destruct (IHd rest' eq_refl) as [K V].
           simpl. rewrite K. split; [reflexivity|].
           constructor; [apply add_vector_done, E|exact V].
        -- split; [intros [e H]; discriminate|].
           intros (i & en & [[= <- <-] | Hin] & Hno); [contradiction|].
           destruct (proj2 IHa) as [e' He']; [|discriminate].
           exists i, en. auto.
      * split; [discriminate|]. split; [|intros _; exists e'; reflexivity].
        intros _. destruct (proj1 IHa (ex_intro _ e' eq_refl))
          as (i & en & Hin & Hno).
        exists i, en. auto.
    + split; [discriminate|]. split; [|intros _; exists e; reflexivity].
      intros _. exists idx, entry. split; [left; reflexivity|].
      apply add_vector_abort. exists e. exact E.
Qed.

Lemma floats_length items fs :
  Vectors.floats F py_float items = Some fs ->
  List.length fs = List.length items.
Proof.
  revert fs. induction items as [|x items IH]; intro fs; simpl.
  - intros [= <-]. reflexivity.
  - destruct (py_float x); [|discriminate].
    destruct (Vectors.floats F py_float items) as [fs'|]; [|discriminate].
    intros [= <-]. simpl. rewrite (IH fs' eq_refl). reflexivity.
Qed.

(** The entry holds a list of 512 values that [float] accepts. *)
Definition uploadable (content : JObj) : Prop :=
  exists vec fs,
    Vectors.obj_get F "vector" content = Some (Vectors.JArray vec) /\
    List.length vec = 512%nat /\
    Vectors.floats F py_float vec = Some fs.

Lemma document_of_Some doc_id content d :
  Vectors.document_of F py_float doc_id content = Some d ->
  Vectors.d_id F d = doc_id /\
  List.length (Vectors.d_vector F d) = 512%nat /\
  uploadable content.
Proof.
  unfold Vectors.document_of, uploadable.
  destruct (Vectors.obj_get F "vector" content) as [[| | | | |vec|]|];
    try discriminate.
  destruct (Nat.eqb_spec (List.length vec) 512) as [L|L]; [|discriminate].
  simpl. destruct (Vectors.floats F py_float vec) as [fs|] eqn:Ef;
    [|discriminate].
  intros [= <-]. simpl. split; [reflexivity|]. split.
  - rewrite (floats_length _ _ Ef). exact L.
  - exists vec, fs. auto.
Qed.

Lemma document_of_None doc_id content :
  Vectors.document_of F py_float doc_id content = None <-> ~ uploadable content.
Proof.
  unfold Vectors.document_of, uploadable. split.
  - intros H (vec & fs & Hv & L & Hf). rewrite Hv, L, Hf in H.
    simpl in H. discriminate.
  - intro H.
    destruct (Vectors.obj_get F "vector" content) as [[| | | | |vec|]|];
      try reflexivity.
    destruct (Nat.eqb_spec (List.length vec) 512) as [L|L]; [|reflexivity].
    simpl. destruct (Vectors.floats F py_float vec) as [fs|] eqn:Ef;
      [|reflexivity].
    exfalso. apply H. exists vec, fs. auto.
Qed.

Definition is_uploaded (kv : string * JObj) : bool :=
  is_some (Vectors.document_of F py_float (fst kv) (snd kv)).

Lemma documents_ids raw_data :
  map (Vectors.d_id F) (Vectors.documents F py_float raw_data)
  = map fst (filter is_uploaded raw_data).
Proof.
  unfold Vectors.documents, is_uploaded.
  induction raw_data as [|[k c] rest IH]; simpl; [reflexivity|].
  destruct (Vectors.document_of F py_float k c) as [d|] eqn:E; simpl.
  - apply document_of_Some in E as [-> _]. rewrite IH. reflexivity.
  - exact IH.
Qed.

Lemma documents_In raw_data d :
  In d (Vectors.documents F py_float raw_data) ->
  exists content,
    In (Vectors.d_id F d, content) raw_data /\
    Vectors.document_of F py_float (Vectors.d_id F d) content = Some d.
Proof.
  unfold Vectors.documents. rewrite in_flat_map.
  intros ([k c] & Hin & Hd). simpl in Hd.
  destruct (Vectors.document_of F py_float k c) as [d0|] eqn:E;
    [|contradiction].
  destruct Hd as [<- | []].
  pose proof (document_of_Some _ _ _ E) as [-> _].
  exists c. auto.
Qed.

(** X14. [upload_documents] posts nothing exactly when no entry of the
    Mapping holds a list of 512 values that [float] accepts; otherwise
    it posts one request to the index's [docs/index] address with one
    "upload" action per such entry and no other, in the order of the
    Mapping, whose id is the entry's key and whose vector has 512
    components (the dimension declared for the index). *)
Theorem upload_documents_spec (endpoint : string)
    (raw_data : list (string * JObj)) :
  (Vectors.upload_documents F py_float endpoint raw_data = None <->
   forall doc_id content, In (doc_id, content) raw_data -> ~ uploadable content)
  /\
  (forall req,
     Vectors.upload_documents F py_float endpoint raw_data = Some req ->
     Vectors.req_url F req
     = (endpoint ++ "/indexes/images-index1/docs/index?api-version=2023-11-01")%string
     /\
     Vectors.req_value F req
     = map (Vectors.action_of F) (Vectors.documents F py_float raw_data) /\
     Vectors.req_value F req <> [] /\
     map (Vectors.d_id F) (Vectors.documents F py_float raw_data)
     = map fst (filter is_uploaded raw_data) /\
     Forall (fun d =>
               List.length (Vectors.d_vector F d)
               = Vectors.vector_search_dimensions /\
               exists content,
                 In (Vectors.d_id F d, content) raw_data /\
                 uploadable content)
            (Vectors.documents F py_float raw_data)).
Proof.
  unfold Vectors.upload_documents. split.
  - split.
    + intros H doc_id content Hin.
      apply document_of_None with (doc_id := doc_id).
      destruct (Vectors.document_of F py_float doc_id content) as [d|] eqn:E;
        [|reflexivity].
      exfalso.
      assert (Hd : In d (Vectors.documents F py_float raw_data)).
      { unfold Vectors.documents. apply in_flat_map.
        exists (doc_id, content). split; [exact Hin|]. simpl. rewrite E.
        left. reflexivity. }
      destruct (Vectors.documents F py_float raw_data);
        [destruct Hd|discriminate].
    + intro H.
      destruct (Vectors.documents F py_float raw_data) as [|d docs] eqn:E;
        [reflexivity|]. exfalso.
      assert (Hd : In d (Vectors.documents F py_float raw_data))
        by (rewrite E; left; reflexivity).
      apply documents_In in Hd as (content & Hin & Hdoc).
      apply document_of_Some in Hdoc as (_ & _ & U).
      apply (H _ _ Hin U).
  - intros req H.
    destruct (Vectors.documents F py_float raw_data) as [|d docs] eqn:E;
      [discriminate|].
    injection H as <-. cbn [Vectors.req_url Vectors.req_value].
    split; [reflexivity|]. split; [reflexivity|]. split; [discriminate|].
    rewrite <- E. split; [apply documents_ids|].
    apply Forall_forall. intros d' Hd.
    apply documents_In in Hd as (content & Hin & Hdoc).
    apply document_of_Some in Hdoc as (_ & L & U).
    split; [exact L|]. exists content. auto.
Qed.

End VectorFacts.

(** ** From the Mapping to the index *)

Section Pipeline.

Variable F : Type.
Variable embed : string -> option (list F).
Variable py_float : Vectors.JValue F -> option F.

(** [float] of a float is that float. *)
Hypothesis float_of_float : forall x, py_float (Vectors.JFloat x) = Some x.

(** The document of a record whose image has an embedding of 512
    components. *)
Definition document_of_record (kv : PyKey * MatchRecord)
    : list (Vectors.Document F) :=
  match embed (Vectors.os_path_join Vectors.images_folder
                 (rec_image (snd kv))) with
  | Some vector =>
      if (List.length vector =? 512)%nat then
        [ {| Vectors.d_id := key_str (fst kv);
             Vectors.d_description := Vectors.JString (rec_text (snd kv));
             Vectors.d_vector := vector |} ]
      else []
  | None => []
  end.

Lemma floats_of_floats (v : list F) :
  Vectors.floats F py_float (map Vectors.JFloat v) = Some v.
Proof.
  induction v as [|x v IH]; simpl; [reflexivity|].
  rewrite float_of_float, IH. reflexivity.
Qed.

Lemma add_vector_record (r : MatchRecord) :
  Vectors.add_vector F embed (Vectors.record_json F r)
  = Vectors.Done
      match embed (Vectors.os_path_join Vectors.images_folder (rec_image r)) with
      | Some vector =>
          Vectors.record_json F r
          ++ [("vector"%string, Vectors.JArray (map Vectors.JFloat vector))]
      | None => Vectors.record_json F r
      end.
Proof.
  unfold Vectors.add_vector. cbn [Vectors.record_json Vectors.obj_get].
  change (String.eqb "image" "image") with true. cbv iota.
  destruct (embed _); reflexivity.
Qed.

Lemma document_of_embedded k (r : MatchRecord) :
  match Vectors.add_vector F embed (Vectors.record_json F r) with
  | Vectors.Done entry' =>
      match Vectors.document_of F py_float (key_str k) entry' with
      | Some d => [d]
      | None => []
      end
  | Vectors.Abort _ => []
  end
  = document_of_record (k, r).
Proof.
  rewrite add_vector_record. unfold document_of_record. cbn [fst snd].
  destruct (embed _) as [vector|]; [|reflexivity].
  unfold Vectors.document_of.
  change (Vectors.obj_get F "vector"
            (Vectors.record_json F r
             ++ [("vector"%string, Vectors.JArray (map Vectors.JFloat vector))]))
    with (Some (Vectors.JArray (map Vectors.JFloat vector))).
  cbv iota. rewrite length_map, floats_of_floats.
  change (Vectors.obj_get F "text"
            (Vectors.record_json F r
             ++ [("vector"%string, Vectors.JArray (map Vectors.JFloat vector))]))
    with (Some (Vectors.JString (F := F) (rec_text r))).
  destruct (List.length vector =? 512)%nat; reflexivity.
Qed.

(** X15. From the Mapping of the extraction to the search index: on
    the Mapping as the extraction writes it, the embedding script never
    aborts, and the upload that follows sends exactly the records whose
    image has an embedding of 512 components, in the order of the
    Mapping, each under the decimal string of its index, with the
    record's text as description and the embedding as vector; records
    whose image could not be embedded are left out without notice to
    the index. *)
Theorem mapping_to_index (data : Dict) :
  exists raw',
    Vectors.add_vectors F embed (Vectors.mapping_json F data)
    = Vectors.Done raw' /\
    map fst raw' = map key_str (keys data) /\
    Vectors.documents F py_float raw' = flat_map document_of_record data.
Proof.
  induction data as [|[k r] data (raw' & Ha & Hk & Hd)].
  - exists []. repeat split.
  - pose proof (document_of_embedded k r) as E.
    cbn [Vectors.mapping_json map fst snd Vectors.add_vectors].
    fold (Vectors.mapping_json F data).
    destruct (Vectors.add_vector F embed (Vectors.record_json F r))
      as [entry'|e] eqn:Ev.
    + rewrite Ha. eexists. split; [reflexivity|]. split.
      * cbn [map fst keys]. unfold keys in Hk. rewrite Hk. reflexivity.
      * cbn [Vectors.documents flat_map fst snd].
        fold (Vectors.documents F py_float raw'). rewrite Hd, E.
        reflexivity.
    + rewrite add_vector_record in Ev. discriminate.
Qed.

End Pipeline.

(** A sample: floats are rationals, [float] accepts numbers only, and
    every image has the embedding of 512 zeros but the one of record 1. *)
Definition sample_float (v : Vectors.JValue Q) : option Q :=
  match v with
  | Vectors.JFloat x => Some x
  | Vectors.JInt z => Some (inject_Z z)
  | _ => None
  end.

Definition sample_embed (path : string) : option (list Q) :=
  if String.eqb path "km_mapped_output/images/img_1.png" then None
  else Some (repeat 0%Q 512).

Lemma mapping_to_index_sample :
  (forall x, sample_float (Vectors.JFloat x) = Some x) /\
  exists raw',
    Vectors.add_vectors Q sample_embed (Vectors.mapping_json Q in_memory_0_4)
    = Vectors.Done raw' /\
    map (Vectors.d_id Q) (Vectors.documents Q sample_float raw')
    = ["0"; "2"; "3"; "4"]%string.
Proof.
  split; [reflexivity|].
  destruct (mapping_to_index Q sample_embed sample_float
              (fun x => eq_refl) in_memory_0_4) as (raw' & Ha & _ & Hd).
  exists raw'. split; [exact Ha|]. rewrite Hd. vm_compute. reflexivity.
Defined.

(** ** Tolerances and candidates *)

Lemma band_eligible_wider h v h' v' img ent :
  (h <= h')%Q -> (v' <= v)%Q ->
  band_eligible h v img ent -> band_eligible h' v' img ent.
Proof.
  unfold band_eligible. intros Hh Hv (H1 & H2 & H3).
  repeat split; lra.
Qed.

(** X16. Relaxing the tolerances of the band policy never loses a
    match: with a horizontal tolerance at least as large and a vertical
    tolerance at least as low, an image that had a match still has one,
    and the new match is at most as far below the image as the old one. *)
Theorem wider_band_keeps_matches (h v h' v' : Q) (img : BBox)
    (entries : list Entry) (ent : Entry) :
  (h <= h')%Q -> (v' <= v)%Q ->
  Band.closest_id_with h v img entries = Some ent ->
  exists ent',
    Band.closest_id_with h' v' img entries = Some ent' /\
    (band_distance img ent' <= band_distance img ent)%Q.
Proof.
  intros Hh Hv H. rewrite band_closest_nearest in H.
  apply nearest_Some, first_nearest_min in H as (Hin & He & _).
  apply band_guard_spec in He.
  pose proof (band_eligible_wider _ _ _ _ _ _ Hh Hv He) as He'.
  apply band_guard_spec in He'.
  destruct (Band.closest_id_with h' v' img entries) as [ent'|] eqn:E;
    rewrite band_closest_nearest in E.
  - exists ent'. split; [reflexivity|].
    apply nearest_Some, first_nearest_min in E as (_ & _ & Hmin).
    apply Hmin; assumption.
  - exfalso. rewrite nearest_None in E. rewrite (E _ Hin) in He'.
    discriminate.
Qed.

Lemma wider_band_keeps_matches_sample :
  (50 <= 60)%Q /\ (-3 <= -2)%Q /\
  exists ent',
    Band.closest_id_with 60 (-3) example_image
      [entry_centered "in" 245 110; entry_centered "near" 255 105]
    = Some ent' /\
    (band_distance example_image ent'
     <= band_distance example_image (entry_centered "in" 245 110))%Q.
Proof.
  assert (H1 : (50 <= 60)%Q) by (vm_compute; discriminate).
  assert (H2 : (-3 <= -2)%Q) by (vm_compute; discriminate).
  split; [exact H1|]. split; [exact H2|].
  apply (wider_band_keeps_matches 50 (-2) 60 (-3) example_image
           [entry_centered "in" 245 110; entry_centered "near" 255 105]
           (entry_centered "in" 245 110) H1 H2).
  vm_compute. reflexivity.
Defined.

(** X17. The image candidates of a page refer to images of that page
    only. In the clustering script a candidate is an image block, with
    the block's bbox and center and the non-zero xref of a page image
    placed at the block's corner, and the candidates follow the order of
    the blocks; in the band script a candidate is a rectangle of a page
    image, with that image's xref, and there is one candidate per
    rectangle, in the order of the images. *)
Theorem candidates_are_page_images (page : Page) :
  (forall cand, In cand (Column.image_info page) ->
     In (ImageBlock (ii_bbox cand)) (pg_blocks page) /\
     ii_center cand = center_of (ii_bbox cand) /\
     ii_xref cand <> 0%Z /\
     exists img rect,
       In img (pg_images page) /\ pi_xref img = ii_xref cand /\
       placement img = Some rect /\
       within_tolerance rect (bx0 (ii_bbox cand)) (by0 (ii_bbox cand))) /\
  (exists keep,
     map ii_bbox (Column.image_info page)
     = flat_map (fun b => match b with
                          | ImageBlock bbox => [bbox]
                          | TextBlock _ _ => []
                          end)
                (filter keep (pg_blocks page))) /\
  (forall cand, In cand (Band.image_info page) <->
     exists img,
       In img (pg_images page) /\ pi_xref img = ii_xref cand /\
       In (ii_bbox cand) (pi_rects img) /\
       ii_center cand = center_of (ii_bbox cand)) /\
  List.length (Band.image_info page)
  = list_sum (map (fun img => List.length (pi_rects img)) (pg_images page)).
Proof.
  split; [|split; [|split]].
  - intros cand Hin. unfold Column.image_info in Hin.
    apply in_flat_map in Hin as (block & Hb & Hc).
    destruct block as [bbox lines|bbox]; [destruct Hc|].
    simpl in Hc.
    destruct (Column.matching_xref (pg_images page) (bx0 bbox) (by0 bbox))
      as [xref|] eqn:E; [|destruct Hc].
    destruct (Z.eqb_spec xref 0) as [Z|NZ]; [destruct Hc|].
    destruct Hc as [<- | []]. cbn [ii_bbox ii_center ii_xref].
    split; [exact Hb|]. split; [reflexivity|]. split; [exact NZ|].
    apply matching_xref_Some in E as (l1 & img & rect & l2 & Ei & _ & P & W & X).
    exists img, rect. rewrite Ei.
    split; [apply in_or_app; right; left; reflexivity|].
    split; [exact X|]. split; [exact P|exact W].
  - exists (fun b => match Column.image_of_block (pg_images page) b with
                     | [] => false
                     | _ => true
                     end).
    unfold Column.image_info.
    induction (pg_blocks page) as [|b l IH]; [reflexivity|].
    cbn [flat_map filter]. rewrite map_app, IH.
    destruct b as [bbox lines|bbox]; [reflexivity|].
    unfold Column.image_of_block at 1 3.
    destruct (Column.matching_xref (pg_images page) (bx0 bbox) (by0 bbox))
      as [xref|]; [|reflexivity].
    destruct (Z.eqb xref 0); reflexivity.
  - intro cand. unfold Band.image_info. rewrite in_flat_map. split.
    + intros (img & Hi & Hc). apply in_map_iff in Hc as (r & <- & Hr).
      exists img. cbn [ii_xref ii_bbox ii_center]. auto.
    + intros (img & Hi & Hx & Hr & Hc). exists img. split; [exact Hi|].
      apply in_map_iff. exists (ii_bbox cand). split; [|exact Hr].
      destruct cand as [x c b]. cbn [ii_xref ii_bbox ii_center] in *.
      subst. reflexivity.
  - unfold Band.image_info.
    induction (pg_images page) as [|img l IH]; [reflexivity|].
    cbn [flat_map map list_sum]. rewrite length_app, length_map, IH.
    reflexivity.
Qed.

(** ** The further properties at the samples *)

(** The sample document with a backend that cannot extract any image. *)
Definition unreadable_doc : Doc :=
  {| doc_pages := doc_pages sample_doc; doc_extract_image := fun _ => None |}.

Definition two_plate_doc : Doc :=
  {| doc_pages := [two_plate_page];
     doc_extract_image := doc_extract_image sample_doc |}.

Lemma band_unextractable_image_sample :
  (exists page, In page (doc_pages unreadable_doc) /\
                band_page_fails unreadable_doc page) /\
  exists e, Band.main None unreadable_doc = Raise e.
Proof.
  assert (H : exists page, In page (doc_pages unreadable_doc) /\
                           band_page_fails unreadable_doc page).
  { exists sample_page. split; [right; left; reflexivity|].
    exists {| ii_xref := 11; ii_center := center_of (mkBBox (101 # 2) 50 150 150);
              ii_bbox := mkBBox (101 # 2) 50 150 150 |}.
    split; [left; reflexivity|]. split; vm_compute; reflexivity. }
  split; [exact H|].
  apply (proj1 (band_unextractable_image_stops_run unreadable_doc) H).
Defined.

Lemma column_failure_sample :
  (exists page, In page (doc_pages two_plate_doc) /\
                column_page_fails sample_kmeans two_plate_doc page) /\
  exists e, Column.run sample_kmeans two_plate_doc = Raise e.
Proof.
  assert (H : exists page, In page (doc_pages two_plate_doc) /\
                           column_page_fails sample_kmeans two_plate_doc page).
  { exists two_plate_page. split; [left; reflexivity|].
    split; [exact two_plate_page_reaches|]. vm_compute. exact I. }
  split; [exact H|].
  apply (proj1 (column_failure_stops_run sample_kmeans two_plate_doc) H).
Defined.

Lemma records_ordered_by_page_sample :
  exists st,
    Column.run sample_kmeans sample_doc = Ok st /\
    map (fun kv => rec_page (snd kv)) (st_data st) = [1; 1; 1]%nat /\
    StronglySorted le (map (fun kv => rec_page (snd kv)) (st_data st)).
Proof.
  destruct (Column.run sample_kmeans sample_doc) as [st|e] eqn:E;
    [|vm_compute in E; discriminate].
  exists st. split; [reflexivity|].
  destruct (proj1 records_ordered_by_page sample_kmeans sample_doc st E)
    as [S _].
  split; [|exact S].
  vm_compute in E. injection E as <-. reflexivity.
Defined.

Lemma one_file_per_record_sample :
  exists st,
    Band.main None sample_doc = Ok st /\
    map fst (st_files st)
    = ["KrauseGuide_Output/images/img_0.png";
       "KrauseGuide_Output/images/img_1.png";
       "KrauseGuide_Output/images/img_2.png"]%string /\
    NoDup (map fst (st_files st)).
Proof.
  destruct (Band.main None sample_doc) as [st|e] eqn:E;
    [|vm_compute in E; discriminate].
  exists st. split; [reflexivity|].
  destruct (proj1 (proj2 one_file_per_record) sample_doc st E) as [_ N].
  split; [|exact N].
  vm_compute in E. injection E as <-. reflexivity.
Defined.

(** A Mapping of two entries, the second without ["image"]. *)
Definition broken_mapping : list (string * Vectors.JObj Q) :=
  [ ("0", Vectors.record_json Q (sample_record "0"));
    ("1", [("text", Vectors.JString "KM# 1")]) ]%string.

Lemma add_vectors_sample :
  Vectors.add_vectors Q sample_embed broken_mapping
  = Vectors.Abort Vectors.KeyError /\
  exists idx entry, In (idx, entry) broken_mapping /\
                    ~ has_image_name Q entry.
Proof.
  assert (E : Vectors.add_vectors Q sample_embed broken_mapping
              = Vectors.Abort Vectors.KeyError) by (vm_compute; reflexivity).
  split; [exact E|].
  apply (proj1 (proj2 (add_vectors_spec Q sample_embed broken_mapping))).
  exists Vectors.KeyError. exact E.
Defined.

Lemma upload_documents_sample :
  Vectors.upload_documents Q sample_float "https://search"
    (Vectors.mapping_json Q in_memory_0_4) = None /\
  forall doc_id content,
    In (doc_id, content) (Vectors.mapping_json Q in_memory_0_4) ->
    ~ uploadable Q sample_float content.
Proof.
  assert (E : Vectors.upload_documents Q sample_float "https://search"
                (Vectors.mapping_json Q in_memory_0_4) = None)
    by (vm_compute; reflexivity).
  split; [exact E|].
  apply (proj1 (proj1 (upload_documents_spec Q sample_float "https://search"
                         (Vectors.mapping_json Q in_memory_0_4)))).
  exact E.
Defined.
